(** * PhotoBooth.jsx: capture sequencing and strip compositing

    A shallow embedding of [src/PhotoBooth.jsx] (the [App] component):
    the filter/overlay/prompt catalogs, the frame capture on the hidden
    canvas, the timer-driven capture sequence with the buttons the JSX
    offers in each mode, and the photo-strip rendering effect.

    Conventions.
    - React state variables are fields of [Sequence.State]; a [setX] call
      is a field update, and the timers created by [setInterval] and
      [setTimeout] live in a table keyed by their handle.
    - JavaScript numbers that stay integral in the code are [Z]; the crop
      arithmetic and the canvas coordinates are [Q], i.e. the IEEE
      rounding of the divisions is not modelled.
    - [undefined] is [None]. *)

From Stdlib Require Import ZArith QArith Qround Lqa String List Lia.
From stdpp Require Import base option list gmap pretty.

Local Open Scope string_scope.
Local Open Scope nat_scope.
Local Open Scope list_scope.
Local Open Scope stdpp_scope.

(** ** The static catalogs *)

Module Catalog.

Record Filter := {
  filter_id : string;
  filter_name : string;
  filter_class : string;
  canvasFilter : string
}.

Definition FILTERS : list Filter := [
  {| filter_id := "normal"; filter_name := "Natural"; filter_class := "";
     canvasFilter := "none" |};
  {| filter_id := "warm"; filter_name := "Golden Hour";
     filter_class := "sepia-[.3] contrast-110 saturate-125 hue-rotate-[-10deg]";
     canvasFilter := "sepia(30%) contrast(110%) saturate(125%) hue-rotate(-10deg)" |};
  {| filter_id := "vintage"; filter_name := "Vintage";
     filter_class := "sepia-[.6] contrast-90 brightness-90 saturate-85";
     canvasFilter := "sepia(60%) contrast(90%) brightness(90%) saturate(85%)" |};
  {| filter_id := "bw"; filter_name := "Classic B&W";
     filter_class := "grayscale contrast-110 brightness-110";
     canvasFilter := "grayscale(100%) contrast(110%) brightness(110%)" |};
  {| filter_id := "noir"; filter_name := "Noir";
     filter_class := "grayscale contrast-150 brightness-90";
     canvasFilter := "grayscale(100%) contrast(150%) brightness(90%)" |};
  {| filter_id := "soft"; filter_name := "Pastel";
     filter_class := "contrast-90 brightness-110 saturate-85";
     canvasFilter := "contrast(90%) brightness(110%) saturate(85%)" |};
  {| filter_id := "cyber"; filter_name := "Cyberpunk";
     filter_class := "contrast-125 saturate-150 hue-rotate-[180deg] brightness-110";
     canvasFilter := "contrast(125%) saturate(150%) hue-rotate(180deg) brightness(110%)" |};
  {| filter_id := "cool"; filter_name := "Cool Tone";
     filter_class := "hue-rotate-[30deg] saturate-90 contrast-110";
     canvasFilter := "hue-rotate(30deg) saturate(90%) contrast(110%)" |}
].

(** The [icon] field of an overlay is a JSX element used by the button
    only; it is left out. *)
Record Overlay := {
  overlay_id : string;
  overlay_name : string
}.

Definition OVERLAYS : list Overlay := [
  {| overlay_id := "none"; overlay_name := "None" |};
  {| overlay_id := "hearts"; overlay_name := "Hearts" |};
  {| overlay_id := "sparkles"; overlay_name := "Sparkles" |};
  {| overlay_id := "vignette"; overlay_name := "Vignette" |};
  {| overlay_id := "grain"; overlay_name := "Film Grain" |}
].

Definition PROMPTS : list string := [
  "Lean in close...";
  "Give a gentle hug!";
  "Big smiles!";
  "Look at each other...";
  "Blow a kiss!";
  "Make a silly face!";
  "Strike a pose!";
  "Chin up, smile!"
].

(** [FILTERS[0]] and [OVERLAYS[0]], the initial selections. *)
Definition FILTERS_0 : Filter :=
  {| filter_id := "normal"; filter_name := "Natural"; filter_class := "";
     canvasFilter := "none" |}.
Definition OVERLAYS_0 : Overlay :=
  {| overlay_id := "none"; overlay_name := "None" |}.

End Catalog.

(** ** Frame capture on the hidden canvas *)

Module Capture.

Local Open Scope Z_scope.

Definition Pixel := Z.

(** The video element as [capturePhoto] reads it: intrinsic size and the
    pixels of the current frame. *)
Record Video := {
  videoWidth : Z;
  videoHeight : Z;
  frame : Z -> Z -> Pixel
}.

(** The current transformation matrix of a 2D context, restricted to the
    axis-aligned matrices [translate] and [scale] can build:
    a user point [(x, y)] lands on [(a*x + e, d*y + f)]. *)
Record Transform := {
  m_a : Z;
  m_d : Z;
  m_e : Z;
  m_f : Z
}.

Definition identity : Transform := {| m_a := 1; m_d := 1; m_e := 0; m_f := 0 |}.

(** A painted device pixel: column, row, value. *)
Definition Painted : Type := Z * Z * Pixel.

Record Canvas := {
  width : Z;
  height : Z;
  ctm : Transform;
  bitmap : list Painted
}.

(** Assigning [canvas.width] or [canvas.height] clears the bitmap and
    resets the context state. *)
Definition set_width (w : Z) (c : Canvas) : Canvas :=
  {| width := w; height := height c; ctm := identity; bitmap := [] |}.
Definition set_height (h : Z) (c : Canvas) : Canvas :=
  {| width := width c; height := h; ctm := identity; bitmap := [] |}.

Definition translate (tx ty : Z) (c : Canvas) : Canvas :=
  {| width := width c; height := height c;
     ctm := {| m_a := m_a (ctm c); m_d := m_d (ctm c);
               m_e := m_e (ctm c) + m_a (ctm c) * tx;
               m_f := m_f (ctm c) + m_d (ctm c) * ty |};
     bitmap := bitmap c |}.

Definition scale (sx sy : Z) (c : Canvas) : Canvas :=
  {| width := width c; height := height c;
     ctm := {| m_a := m_a (ctm c) * sx; m_d := m_d (ctm c) * sy;
               m_e := m_e (ctm c); m_f := m_f (ctm c) |};
     bitmap := bitmap c |}.

(** The device column (row) covered by the user-space unit interval
    starting at [x]: the smaller image of its two ends. *)
Definition dev_col (m : Transform) (x : Z) : Z :=
  Z.min (m_a m * x + m_e m) (m_a m * (x + 1) + m_e m).
Definition dev_row (m : Transform) (y : Z) : Z :=
  Z.min (m_d m * y + m_f m) (m_d m * (y + 1) + m_f m).

Definition on_canvas (c : Canvas) (p : Painted) : bool :=
  (0 <=? p.1.1) && (p.1.1 <? width c) && (0 <=? p.1.2) && (p.1.2 <? height c).

(** [context.drawImage(video, dx, dy, dw, dh)]: every user-space pixel of
    the destination rectangle takes the source pixel it covers (the source
    is sampled at [ux * videoWidth / dw]; with [dw = videoWidth] that is the
    identity), is moved by the current matrix and clipped to the canvas. *)
Definition drawImage (v : Video) (dx dy dw dh : Z) (c : Canvas) : Canvas :=
  {| width := width c; height := height c; ctm := ctm c;
     bitmap := bitmap c ++
       filter (fun p => Is_true (on_canvas c p))
         (uy ← seqZ 0 dh; ux ← seqZ 0 dw;
          [(dev_col (ctm c) (dx + ux), dev_row (ctm c) (dy + uy),
            frame v (ux * videoWidth v / dw) (uy * videoHeight v / dh))]) |}.

Inductive Mime := image_jpeg | image_png.

(** PNG stores the bitmap exactly; JPEG is a lossy codec at every quality
    setting below 1. *)
Definition lossless (m : Mime) : bool :=
  match m with image_png => true | image_jpeg => false end.

(** What [toDataURL] returns: ["data:,"] for a canvas without pixels, else
    the bitmap handed to the encoder with the format requested. *)
Inductive DataUrl :=
  | EmptyData
  | Encoded (mime : Mime) (quality : option Q) (w h : Z) (bm : list Painted).

Definition toDataURL (mime : Mime) (quality : option Q) (c : Canvas) : DataUrl :=
  if (width c =? 0) || (height c =? 0) then EmptyData
  else Encoded mime quality (width c) (height c) (bitmap c).

(** Whether a data URL holds its bitmap exactly. *)
Definition encoded_lossless (d : DataUrl) : bool :=
  match d with
  | EmptyData => true
  | Encoded mime _ _ _ _ => lossless mime
  end.

(** The canvas part of [capturePhoto], lines 110-120. [canvas] is the
    hidden capture canvas as the previous capture left it. *)
Definition captureCanvas (video : Video) (canvas : Canvas) : Canvas :=
  let canvas := set_width (videoWidth video) canvas in
  let canvas := set_height (videoHeight video) canvas in
  let canvas := translate (width canvas) 0 canvas in
  let canvas := scale (-1) 1 canvas in
  drawImage video 0 0 (width canvas) (height canvas) canvas.

Definition captureDataUrl (video : Video) (canvas : Canvas) : DataUrl :=
  toDataURL image_jpeg (Some (95 # 100)%Q) (captureCanvas video canvas).

(** A frame flipped left to right, pixel by pixel in the order a capture
    paints them: row by row from the top, each row from its right end. *)
Definition mirrored (video : Video) : list Painted :=
  uy ← seqZ 0 (videoHeight video); ux ← seqZ 0 (videoWidth video);
  [(videoWidth video - 1 - ux, uy, frame video ux uy)].

(** A fresh [<canvas>] element: 300 x 150, nothing painted. *)
Definition blank : Canvas :=
  {| width := 300; height := 150; ctm := identity; bitmap := [] |}.

End Capture.

(** ** The capture sequence: state, timers and handlers *)

Module Sequence.

Import Catalog.

(** [mode] is assigned ['idle'], ['countdown'] and ['review'] only; the
    ['capturing'] of the comment on line 48 is never set. *)
Inductive Mode := Idle | Countdown | Review.

(** A stored photo: the data URL [capturePhoto] returned, or [undefined]. *)
Definition Photo : Type := option Capture.DataUrl.

(** The three kinds of callback the component hands to the browser.
    - [IntervalTick count timer]: the [setInterval] callback of
      [runSequence(count)] (every 1000 ms), with the current value of its
      closure variable [timer];
    - [NextShot count]: [setTimeout(() => runSequence(count + 1), 1000)];
    - [FlashOff]: [setTimeout(() => setFlashActive(false), 150)]. *)
Inductive Timer :=
  | IntervalTick (count : nat) (timer : Z)
  | NextShot (count : nat)
  | FlashOff.

(** The countdown interval and the inter-shot delay drive the sequence;
    the flash timeout does not. *)
Definition drives_sequence (t : Timer) : bool :=
  match t with
  | IntervalTick _ _ | NextShot _ => true
  | FlashOff => false
  end.

Record State := {
  stream : bool;                      (* a MediaStream, or null *)
  error : option string;
  mode : Mode;
  photos : list Photo;
  countdown : option Z;               (* null, or the number shown *)
  currentFilter : Filter;
  currentOverlay : Overlay;
  currentPrompt : string;
  flashActive : bool;
  canvas : Capture.Canvas;            (* the element behind canvasRef *)
  timers : gmap nat Timer;            (* pending callbacks by handle *)
  nextTimer : nat                     (* the next handle to be issued *)
}.

Definition init : State := {|
  stream := false; error := None; mode := Idle; photos := [];
  countdown := None; currentFilter := FILTERS_0; currentOverlay := OVERLAYS_0;
  currentPrompt := ""; flashActive := false; canvas := Capture.blank;
  timers := ∅; nextTimer := 0
|}.

(** *** State setters *)

Definition setStream (b : bool) (s : State) : State :=
  {| stream := b; error := error s; mode := mode s; photos := photos s;
     countdown := countdown s; currentFilter := currentFilter s;
     currentOverlay := currentOverlay s; currentPrompt := currentPrompt s;
     flashActive := flashActive s; canvas := canvas s; timers := timers s;
     nextTimer := nextTimer s |}.

Definition setError (e : option string) (s : State) : State :=
  {| stream := stream s; error := e; mode := mode s; photos := photos s;
     countdown := countdown s; currentFilter := currentFilter s;
     currentOverlay := currentOverlay s; currentPrompt := currentPrompt s;
     flashActive := flashActive s; canvas := canvas s; timers := timers s;
     nextTimer := nextTimer s |}.

Definition setMode (m : Mode) (s : State) : State :=
  {| stream := stream s; error := error s; mode := m; photos := photos s;
     countdown := countdown s; currentFilter := currentFilter s;
     currentOverlay := currentOverlay s; currentPrompt := currentPrompt s;
     flashActive := flashActive s; canvas := canvas s; timers := timers s;
     nextTimer := nextTimer s |}.

(** [setPhotos(prev => f(prev))]; [setPhotos([])] is [setPhotos (fun _ => [])]. *)
Definition setPhotos (f : list Photo -> list Photo) (s : State) : State :=
  {| stream := stream s; error := error s; mode := mode s;
     photos := f (photos s);
     countdown := countdown s; currentFilter := currentFilter s;
     currentOverlay := currentOverlay s; currentPrompt := currentPrompt s;
     flashActive := flashActive s; canvas := canvas s; timers := timers s;
     nextTimer := nextTimer s |}.

Definition setCountdown (c : option Z) (s : State) : State :=
  {| stream := stream s; error := error s; mode := mode s; photos := photos s;
     countdown := c; currentFilter := currentFilter s;
     currentOverlay := currentOverlay s; currentPrompt := currentPrompt s;
     flashActive := flashActive s; canvas := canvas s; timers := timers s;
     nextTimer := nextTimer s |}.

Definition setCurrentFilter (f : Filter) (s : State) : State :=
  {| stream := stream s; error := error s; mode := mode s; photos := photos s;
     countdown := countdown s; currentFilter := f;
     currentOverlay := currentOverlay s; currentPrompt := currentPrompt s;
     flashActive := flashActive s; canvas := canvas s; timers := timers s;
     nextTimer := nextTimer s |}.

Definition setCurrentOverlay (o : Overlay) (s : State) : State :=
  {| stream := stream s; error := error s; mode := mode s; photos := photos s;
     countdown := countdown s; currentFilter := currentFilter s;
     currentOverlay := o; currentPrompt := currentPrompt s;
     flashActive := flashActive s; canvas := canvas s; timers := timers s;
     nextTimer := nextTimer s |}.

Definition setCurrentPrompt (p : string) (s : State) : State :=
  {| stream := stream s; error := error s; mode := mode s; photos := photos s;
     countdown := countdown s; currentFilter := currentFilter s;
     currentOverlay := currentOverlay s; currentPrompt := p;
     flashActive := flashActive s; canvas := canvas s; timers := timers s;
     nextTimer := nextTimer s |}.

Definition setFlashActive (b : bool) (s : State) : State :=
  {| stream := stream s; error := error s; mode := mode s; photos := photos s;
     countdown := countdown s; currentFilter := currentFilter s;
     currentOverlay := currentOverlay s; currentPrompt := currentPrompt s;
     flashActive := b; canvas := canvas s; timers := timers s;
     nextTimer := nextTimer s |}.

Definition setCanvas (c : Capture.Canvas) (s : State) : State :=
  {| stream := stream s; error := error s; mode := mode s; photos := photos s;
     countdown := countdown s; currentFilter := currentFilter s;
     currentOverlay := currentOverlay s; currentPrompt := currentPrompt s;
     flashActive := flashActive s; canvas := c; timers := timers s;
     nextTimer := nextTimer s |}.

Definition setTimers (m : gmap nat Timer) (s : State) : State :=
  {| stream := stream s; error := error s; mode := mode s; photos := photos s;
     countdown := countdown s; currentFilter := currentFilter s;
     currentOverlay := currentOverlay s; currentPrompt := currentPrompt s;
     flashActive := flashActive s; canvas := canvas s; timers := m;
     nextTimer := nextTimer s |}.

(** *** Browser timers *)

(** [setInterval] and [setTimeout] register the callback under a new
    handle; a timeout leaves the table when it fires, an interval stays
    until [clearInterval]. *)
Definition register (t : Timer) (s : State) : State :=
  {| stream := stream s; error := error s; mode := mode s; photos := photos s;
     countdown := countdown s; currentFilter := currentFilter s;
     currentOverlay := currentOverlay s; currentPrompt := currentPrompt s;
     flashActive := flashActive s; canvas := canvas s;
     timers := <[nextTimer s := t]> (timers s);
     nextTimer := S (nextTimer s) |}.

Definition setInterval := register.
Definition setTimeout := register.

Definition clearInterval (id : nat) (s : State) : State :=
  setTimers (delete id (timers s)) s.

(** *** What a callback sees of the outside world *)

Record Env := {
  video : Capture.Video;   (* the <video> element's current size and frame *)
  random : Q               (* the value of Math.random() *)
}.

(** The JSX mounts the capture canvas unless the error screen is shown,
    and the <video> element when moreover [mode !== 'review'] and a stream
    is there (lines 308, 341, 353-364). *)
Definition canvasRef (s : State) : option Capture.Canvas :=
  match error s with
  | Some _ => None
  | None => Some (canvas s)
  end.

Definition videoRef (env : Env) (s : State) : option Capture.Video :=
  match error s, mode s with
  | Some _, _ => None
  | None, Review => None
  | None, _ => if stream s then Some (video env) else None
  end.

(** *** The handlers *)

(** [capturePhoto], lines 103-127: the returned data URL (or [undefined])
    and the state after it. *)
Definition capturePhoto (env : Env) (s : State) : Photo * State :=
  match videoRef env s, canvasRef s with
  | Some video, Some canvas =>
      let canvas := Capture.captureCanvas video canvas in
      let dataUrl := Capture.toDataURL Capture.image_jpeg (Some (95 # 100)%Q) canvas in
      let s := setCanvas canvas s in
      let s := setFlashActive true s in
      let s := setTimeout FlashOff s in
      (Some dataUrl, s)
  | _, _ => (None, s)
  end.

(** [PROMPTS[Math.floor(Math.random() * PROMPTS.length)]] *)
Definition pickPrompt (env : Env) : string :=
  nth (Z.to_nat (Qfloor (random env * inject_Z (Z.of_nat (length PROMPTS)))))
      PROMPTS "".

(** [runSequence], lines 135-161, up to the [setInterval] call. *)
Definition runSequence (count : nat) (env : Env) (s : State) : State :=
  if (3 <=? count)%nat then setMode Review s
  else
    let s := setCurrentPrompt (pickPrompt env) s in
    let timer := 3%Z in
    let s := setCountdown (Some timer) s in
    setInterval (IntervalTick count timer) s.

(** The interval callback of [runSequence(count)], lines 147-160, run
    under handle [interval] with closure variable [timer]. *)
Definition intervalCallback (interval : nat) (count : nat) (timer : Z)
    (env : Env) (s : State) : State :=
  let timer := (timer - 1)%Z in
  let s := setTimers (<[interval := IntervalTick count timer]> (timers s)) s in
  let s := setCountdown (Some timer) s in
  if (timer =? 0)%Z then
    let s := clearInterval interval s in
    let '(photo, s) := capturePhoto env s in
    let s := setPhotos (fun prev => prev ++ [photo]) s in
    setTimeout (NextShot count) s
  else s.

Definition startSequence (env : Env) (s : State) : State :=
  let s := setMode Countdown s in
  let s := setPhotos (fun _ => []) s in
  runSequence 0 env s.

Definition resetBooth (s : State) : State :=
  let s := setPhotos (fun _ => []) s in
  let s := setMode Idle s in
  setCountdown None s.

(** The browser runs the callback registered under [id]. *)
Definition fire (id : nat) (env : Env) (s : State) : option State :=
  match timers s !! id with
  | None => None
  | Some (IntervalTick count timer) =>
      Some (intervalCallback id count timer env s)
  | Some (NextShot count) =>
      Some (runSequence (count + 1) env (setTimers (delete id (timers s)) s))
  | Some FlashOff =>
      Some (setFlashActive false (setTimers (delete id (timers s)) s))
  end.

(** *** Events *)

Inductive Event :=
  | CameraGranted                       (* getUserMedia resolved *)
  | CameraDenied                        (* getUserMedia rejected *)
  | ClickStart (env : Env)
  | ClickReset                          (* "Share" and "New Session" *)
  | ClickFilter (f : Filter)
  | ClickOverlay (o : Overlay)
  | ClickDownload
  | Fire (id : nat) (env : Env).

Definition camera_error : string :=
  "Unable to access camera. Please allow camera permissions to use the booth.".

(** What the code run by an event does to the state, wherever it is
    called from. [downloadStrip] leaves the React state alone. *)
Definition handle (e : Event) (s : State) : option State :=
  match e with
  | CameraGranted => Some (setError None (setStream true s))
  | CameraDenied => Some (setError (Some camera_error) s)
  | ClickStart env => Some (startSequence env s)
  | ClickReset => Some (resetBooth s)
  | ClickFilter f => Some (setCurrentFilter f s)
  | ClickOverlay o => Some (setCurrentOverlay o s)
  | ClickDownload => Some s
  | Fire id env => fire id env s
  end.

#[global] Instance Filter_eq_dec : EqDecision Filter.
Proof. solve_decision. Defined.
#[global] Instance Overlay_eq_dec : EqDecision Overlay.
Proof. solve_decision. Defined.
#[global] Instance Mode_eq_dec : EqDecision Mode.
Proof. solve_decision. Defined.

(** Which events the page lets happen. The camera promise settles once;
    the controls are rendered when [mode === 'idle'] (line 413), the
    review panel when [mode === 'review'] (line 484), nothing but a
    reload button once [error] is set (line 308); timers are the
    browser's. *)
Definition offered (e : Event) (s : State) : bool :=
  match e with
  | CameraGranted | CameraDenied => negb (stream s) && bool_decide (error s = None)
  | ClickStart _ =>
      bool_decide (error s = None) && bool_decide (mode s = Idle)
  | ClickFilter f =>
      bool_decide (error s = None) && bool_decide (mode s = Idle)
      && bool_decide (f ∈ FILTERS)
  | ClickOverlay o =>
      bool_decide (error s = None) && bool_decide (mode s = Idle)
      && bool_decide (o ∈ OVERLAYS)
  | ClickReset | ClickDownload =>
      bool_decide (error s = None) && bool_decide (mode s = Review)
  | Fire _ _ => true
  end.

(** One step of the running page. *)
Definition ui_step (e : Event) (s : State) : option State :=
  if offered e s then handle e s else None.

(** Runs of events, through the page ([ui_run]) or straight on the
    handlers ([handle_run]). *)
Fixpoint ui_run (es : list Event) (s : State) : option State :=
  match es with
  | [] => Some s
  | e :: es => s' ← ui_step e s; ui_run es s'
  end.

Fixpoint handle_run (es : list Event) (s : State) : option State :=
  match es with
  | [] => Some s
  | e :: es => s' ← handle e s; handle_run es s'
  end.

Inductive reachable : State -> Prop :=
  | reachable_init : reachable init
  | reachable_step e s s' : reachable s -> ui_step e s = Some s' -> reachable s'.

(** The states passed through by a run, one per event, up to the first
    event the page does not offer. *)
Fixpoint ui_trace (es : list Event) (s : State) : list State :=
  match es with
  | [] => []
  | e :: es =>
      match ui_step e s with
      | Some s' => s' :: ui_trace es s'
      | None => []
      end
  end.

(** A stored photo that is a real frame, not [undefined] and not the
    empty ["data:,"]. *)
Definition is_frame (p : Photo) : bool :=
  match p with
  | Some (Capture.Encoded _ _ _ _ _) => true
  | _ => false
  end.

(** An event during which the video element, if mounted, has a frame. *)
Definition live (e : Event) : Prop :=
  match e with
  | ClickStart env | Fire _ env =>
      (0 < Capture.videoWidth (video env))%Z /\
      (0 < Capture.videoHeight (video env))%Z
  | _ => True
  end.

(** The camera stream is there and every stored photo is a real frame. *)
Definition all_frames (s : State) : Prop :=
  stream s = true /\ error s = None /\
  Forall (fun p => is_frame p = true) (photos s).

(** No pending timer has a handle that is still to be issued. *)
Definition fresh (s : State) : Prop :=
  forall id, is_Some (timers s !! id) -> id < nextTimer s.

(** One whole session from a page whose next timer handle is [n]: the
    click on the camera button, then three times three ticks of the
    countdown and the end of the delay after the shot. [envs k] is what
    the [k]-th event sees; the captures are events 3, 7 and 11. The flash
    timeouts (handles [n+1], [n+4], [n+7]) are left pending. *)
Definition session (n : nat) (envs : nat -> Env) : list Event :=
  [ ClickStart (envs 0);
    Fire n (envs 1); Fire n (envs 2); Fire n (envs 3);
    Fire (n + 2) (envs 4);
    Fire (n + 3) (envs 5); Fire (n + 3) (envs 6); Fire (n + 3) (envs 7);
    Fire (n + 5) (envs 8);
    Fire (n + 6) (envs 9); Fire (n + 6) (envs 10); Fire (n + 6) (envs 11);
    Fire (n + 8) (envs 12) ].

(** Where a running sequence stands: counting down for shot [count] with
    [timer] on the display, or waiting out the delay after it. In both
    the driving timer is the one registered last. *)
Definition ticking (count : nat) (timer : Z) (ps : list Photo) (s : State) : Prop :=
  mode s = Countdown /\ error s = None /\ stream s = true /\ photos s = ps /\
  exists id, nextTimer s = S id /\ timers s !! id = Some (IntervalTick count timer).

Definition waiting (count : nat) (ps : list Photo) (s : State) : Prop :=
  mode s = Countdown /\ error s = None /\ stream s = true /\ photos s = ps /\
  exists id, nextTimer s = S id /\ timers s !! id = Some (NextShot count).

(** The number of pending timers that drive a sequence. *)
Definition countdown_timers (s : State) : nat :=
  size (filter (fun it => drives_sequence it.2 = true) (timers s)).

(** *** The invariant of the running page *)

Definition no_driver (m : gmap nat Timer) : Prop :=
  forall i t, m !! i = Some t -> drives_sequence t = false.

Definition sole_driver (i : nat) (t : Timer) (m : gmap nat Timer) : Prop :=
  m !! i = Some t /\ drives_sequence t = true /\
  forall j t', m !! j = Some t' -> drives_sequence t' = true -> j = i.

(** How far the sequence is, read off its one pending timer. *)
Definition phase (t : Timer) (photos : list Photo) : Prop :=
  match t with
  | IntervalTick count timer =>
      length photos = count /\ count < 3 /\ (1 <= timer <= 3)%Z
  | NextShot count => length photos = S count /\ count < 3
  | FlashOff => False
  end.

Definition Inv (s : State) : Prop :=
  match mode s with
  | Idle => no_driver (timers s) /\ photos s = []
  | Review => no_driver (timers s) /\ length (photos s) = 3
  | Countdown => exists i t, sole_driver i t (timers s) /\ phase t (photos s)
  end.

(** *** What the page shows during a countdown *)

(** Lines 399-408: the prompt is rendered in countdown mode, below the
    number, when it is a non-empty string and [countdown > 1]; nothing of
    this is rendered on the error screen. [null > 1] is false. *)
Definition promptShown (s : State) : bool :=
  bool_decide (error s = None) && bool_decide (mode s = Countdown)
  && negb (String.eqb (currentPrompt s) "")
  && match countdown s with Some k => (1 <? k)%Z | None => false end.

(** An event whose [Math.random()] lies where it always does, in [0, 1). *)
Definition sane (e : Event) : Prop :=
  match e with
  | ClickStart env | Fire _ env => (0 <= random env)%Q /\ (random env < 1)%Q
  | _ => True
  end.

(** The number on display, mode by mode: [null] in idle, the counter of
    the pending interval while it ticks, 0 from the capture on. *)
Definition shown (s : State) : Prop :=
  match mode s with
  | Idle => countdown s = None
  | Review => countdown s = Some 0%Z
  | Countdown =>
      forall id t, timers s !! id = Some t ->
        match t with
        | IntervalTick _ timer => countdown s = Some timer
        | NextShot _ => countdown s = Some 0%Z
        | FlashOff => True
        end
  end.

(** Some pending timeout will switch the flash off. *)
Definition armed (m : gmap nat Timer) : Prop :=
  exists id, m !! id = Some FlashOff.

(** A click on a filter or an overlay button. *)
Definition is_selection (e : Event) : bool :=
  match e with
  | ClickFilter _ | ClickOverlay _ => true
  | _ => false
  end.

(** *** The shots of a run *)

(** The shot an event takes, if it takes one: the handle of the interval
    whose callback finds its countdown at zero, and the value that
    callback gets from [capturePhoto] and appends to the photo list. *)
Definition shot (e : Event) (s : State) : option (nat * Photo) :=
  match e with
  | Fire id env =>
      match timers s !! id with
      | Some (IntervalTick count timer) =>
          if (timer - 1 =? 0)%Z
          then Some (id,
                     (capturePhoto env
                        (clearInterval id
                           (setCountdown (Some (timer - 1)%Z)
                              (setTimers
                                 (<[id := IntervalTick count (timer - 1)]> (timers s))
                                 s)))).1)
          else None
      | _ => None
      end
  | _ => None
  end.



End Sequence.

(** ** The photo strip: layout, drawing commands and the rendering effect *)

Module Strip.

Import Catalog.

Local Open Scope Z_scope.

(** Lines 195-204. *)
Definition photoWidth : Z := 600.
Definition photoHeight : Z := 450.
Definition gap : Z := 30.
Definition sidePadding : Z := 80.
Definition topPadding : Z := 60.
Definition bottomPadding : Z := 100.

Definition totalWidth : Z := photoWidth + (sidePadding * 2).
Definition totalHeight : Z :=
  topPadding + (photoHeight * 3) + (gap * 2) + bottomPadding.

(** Lines 214-217. *)
Definition sprocketWidth : Z := 20.
Definition sprocketHeight : Z := 30.
Definition sprocketGap : Z := 40.
Definition sprocketColor : string := "#e5e5e5".

(** A loaded [Image]: its natural size and the data it was decoded from. *)
Record Image := {
  img_width : Z;
  img_height : Z;
  img_src : Sequence.Photo
}.

(** The value of [ctx.fillStyle]: a CSS colour, or a radial gradient with
    its two circles and its colour stops. *)
Inductive FillStyle :=
  | Color (css : string)
  | RadialGradient (x0 y0 r0 x1 y1 r1 : Q) (stops : list (Q * string)).

(** The calls made on the strip canvas context. *)
Inductive Op :=
  | save
  | restore
  | set_filter (f : string)
  | set_fillStyle (st : FillStyle)
  | set_font (f : string)
  | set_textAlign (a : string)
  | fillRect (x y w h : Q)
  | beginPath
  | roundRect (x y w h r : Q)
  | fill
  | drawImage (img : Image) (sx sy sW sH dx dy dW dH : Q)
  | fillText (text : string) (x y : Q).

(** The strip canvas: its size and the calls made since it was last sized
    (assigning [canvas.width] clears it). *)
Record StripCanvas := {
  width : Z;
  height : Z;
  ops : list Op
}.

Definition blank : StripCanvas := {| width := 300; height := 150; ops := [] |}.


(** The sprocket loop of lines 220-231,
    [for (let y = 20; y < totalHeight; y += sprocketGap + sprocketHeight)];
    [fuel] bounds the number of rounds. *)
Fixpoint sprockets (fuel : nat) (y : Z) : list Op :=
  match fuel with
  | O => []
  | S fuel =>
      if y <? totalHeight then
        [ set_fillStyle (Color sprocketColor);
          beginPath;
          roundRect 15 (inject_Z y) (inject_Z sprocketWidth) (inject_Z sprocketHeight) 4;
          fill;
          beginPath;
          roundRect (inject_Z (totalWidth - 15 - sprocketWidth)) (inject_Z y)
                    (inject_Z sprocketWidth) (inject_Z sprocketHeight) 4;
          fill ]
        ++ sprockets fuel (y + (sprocketGap + sprocketHeight))
      else []
  end.

(** The source rectangle of lines 246-263. *)
Record Crop := { sx : Q; sy : Q; sW : Q; sH : Q }.

Definition dRatio : Q := inject_Z photoWidth / inject_Z photoHeight.

Definition crop (sWidth sHeight : Q) : Crop :=
  let sRatio := (sWidth / sHeight)%Q in
  if negb (Qle_bool sRatio dRatio) then
    let sH := sHeight in
    let sW := (sH * dRatio)%Q in
    {| sx := (sWidth - sW) / 2; sy := 0; sW := sW; sH := sH |}
  else
    let sW := sWidth in
    let sH := (sW / dRatio)%Q in
    {| sx := 0; sy := (sHeight - sH) / 2; sW := sW; sH := sH |}.

(** The glyph drawn by the hearts overlay: U+2665 in UTF-8. *)
Definition heart : string :=
  String (Ascii.ascii_of_nat 226)
    (String (Ascii.ascii_of_nat 153)
       (String (Ascii.ascii_of_nat 165) EmptyString)).

(** Lines 268-284, for the cell whose top edge is at [yPos]. *)
Definition overlayOps (currentOverlay : Overlay) (yPos : Z) : list Op :=
  if String.eqb (overlay_id currentOverlay) "vignette" then
    [ set_fillStyle
        (RadialGradient
           (inject_Z sidePadding + inject_Z photoWidth / 2) (inject_Z yPos + inject_Z photoHeight / 2)
           (inject_Z photoHeight * (3 # 10))
           (inject_Z sidePadding + inject_Z photoWidth / 2) (inject_Z yPos + inject_Z photoHeight / 2)
           (inject_Z photoHeight * (8 # 10))
           [ (0%Q, "rgba(0,0,0,0)"); (1%Q, "rgba(0,0,0,0.6)") ]);
      fillRect (inject_Z sidePadding) (inject_Z yPos) (inject_Z photoWidth) (inject_Z photoHeight) ]
  else if String.eqb (overlay_id currentOverlay) "hearts" then
    [ set_filter "none";
      set_fillStyle (Color "rgba(255, 150, 150, 0.7)");
      set_font "40px serif";
      fillText heart (inject_Z (sidePadding + 20)) (inject_Z (yPos + 50));
      fillText heart (inject_Z (sidePadding + photoWidth - 50))
                     (inject_Z (yPos + photoHeight - 20)) ]
  else [].

(** Lines 289-298; [date] is [new Date().toLocaleDateString().toUpperCase()]. *)
Definition footerOps (date : string) : list Op :=
  [ set_fillStyle (Color "#ffffff");
    set_font "bold 32px Courier New";
    set_textAlign "center";
    fillText "MEMORIES" (inject_Z totalWidth / 2) (inject_Z (totalHeight - 50));
    set_fillStyle (Color "#888888");
    set_font "16px Courier New";
    fillText date (inject_Z totalWidth / 2) (inject_Z (totalHeight - 25)) ].

(** A JavaScript string is truthy unless empty. *)
Definition truthy (s : string) : bool :=
  match s with EmptyString => false | _ => true end.

Definition yPos (i : nat) : Z := topPadding + Z.of_nat i * (photoHeight + gap).

(** The [img.onload] callback of lines 236-299 for the photo at index [i],
    closed over the filter and overlay of the render that created it:
    first the cell, between [ctx.save()] and [ctx.restore()] ... *)
Definition cellOps (i : nat) (img : Image) (currentFilter : Filter)
    (currentOverlay : Overlay) : list Op :=
  let yPos := yPos i in
  [save]
  ++ (if truthy (canvasFilter currentFilter)
      then [set_filter (canvasFilter currentFilter)] else [])
  ++ (let c := crop (inject_Z (img_width img)) (inject_Z (img_height img)) in
      [drawImage img (sx c) (sy c) (sW c) (sH c)
         (inject_Z sidePadding) (inject_Z yPos)
         (inject_Z photoWidth) (inject_Z photoHeight)])
  ++ overlayOps currentOverlay yPos
  ++ [restore].

(** ... then the footer, [if (i === 2)]. *)
Definition onload (i : nat) (img : Image) (currentFilter : Filter)
    (currentOverlay : Overlay) (date : string) : list Op :=
  cellOps i img currentFilter currentOverlay
  ++ (if (i =? 2)%nat then footerOps date else []).

(** An image whose load is pending: index, source, and the selections its
    callback closed over. *)
Record Load := {
  load_index : nat;
  load_src : Sequence.Photo;
  load_filter : Filter;
  load_overlay : Overlay
}.

(** The synchronous part of the effect of lines 190-303: nothing unless
    the guard of line 191 holds; else the canvas is sized and cleared, the
    background and the sprockets are drawn, and one image load per photo
    is started. *)
Definition renderStrip (mode : Sequence.Mode) (photos : list Sequence.Photo)
    (currentFilter : Filter) (currentOverlay : Overlay)
    (stripCanvasRef : option StripCanvas)
    : option (StripCanvas * list Load) :=
  match stripCanvasRef with
  | Some _ =>
      if bool_decide (mode = Sequence.Review) && (length photos =? 3)%nat then
        Some ({| width := totalWidth; height := totalHeight;
                 ops := [ set_fillStyle (Color "#111111");
                          fillRect 0 0 (inject_Z totalWidth) (inject_Z totalHeight) ]
                        ++ sprockets (Z.to_nat totalHeight) 20 |},
              imap (fun i photoData =>
                      {| load_index := i; load_src := photoData;
                         load_filter := currentFilter;
                         load_overlay := currentOverlay |}) photos)
      else None
  | None => None
  end.

(** The effect as the component runs it on its state. *)
Definition stripEffect (s : Sequence.State) (stripCanvasRef : option StripCanvas)
    : option (StripCanvas * list Load) :=
  renderStrip (Sequence.mode s) (Sequence.photos s) (Sequence.currentFilter s)
    (Sequence.currentOverlay s) stripCanvasRef.


(** Decoding a stored photo: [undefined] and ["data:,"] never load; an
    encoded bitmap loads with the size it was encoded at. *)
Definition decode (p : Sequence.Photo) : option Image :=
  match p with
  | Some (Capture.Encoded _ _ w h _) =>
      Some {| img_width := w; img_height := h; img_src := p |}
  | _ => None
  end.

(** One image finishes loading: its callback draws on the canvas. *)
Definition complete (date : string) (loads : list Load) (c : StripCanvas)
    (i : nat) : StripCanvas :=
  match loads !! i with
  | Some l =>
      match decode (load_src l) with
      | Some img =>
          {| width := width c; height := height c;
             ops := ops c ++ onload (load_index l) img (load_filter l)
                                    (load_overlay l) date |}
      | None => c
      end
  | None => c
  end.

(** The loads finish in the order [order]. *)
Definition completeAll (date : string) (loads : list Load) (order : list nat)
    (c : StripCanvas) : StripCanvas :=
  foldl (complete date loads) c order.

(** *** The context state at each painting call *)

Record Ctx := {
  ctx_filter : string;
  ctx_fillStyle : FillStyle;
  ctx_font : string;
  ctx_textAlign : string
}.

(** The state of a context whose canvas was just sized. *)
Definition ctx0 : Ctx :=
  {| ctx_filter := "none"; ctx_fillStyle := Color "#000000";
     ctx_font := "10px sans-serif"; ctx_textAlign := "start" |}.

Definition paints (o : Op) : bool :=
  match o with
  | fillRect _ _ _ _ | fill | drawImage _ _ _ _ _ _ _ _ _ | fillText _ _ _ => true
  | _ => false
  end.

(** Replays [ops] from context [c] with saved states [stack] and lists
    the painting calls with the context each one is made under. *)
Fixpoint painted (ops : list Op) (c : Ctx) (stack : list Ctx) : list (Op * Ctx) :=
  match ops with
  | [] => []
  | o :: ops =>
      match o with
      | save => painted ops c (c :: stack)
      | restore =>
          match stack with
          | c' :: stack => painted ops c' stack
          | [] => painted ops c []
          end
      | set_filter f =>
          painted ops {| ctx_filter := f; ctx_fillStyle := ctx_fillStyle c;
                         ctx_font := ctx_font c; ctx_textAlign := ctx_textAlign c |} stack
      | set_fillStyle st =>
          painted ops {| ctx_filter := ctx_filter c; ctx_fillStyle := st;
                         ctx_font := ctx_font c; ctx_textAlign := ctx_textAlign c |} stack
      | set_font f =>
          painted ops {| ctx_filter := ctx_filter c; ctx_fillStyle := ctx_fillStyle c;
                         ctx_font := f; ctx_textAlign := ctx_textAlign c |} stack
      | set_textAlign a =>
          painted ops {| ctx_filter := ctx_filter c; ctx_fillStyle := ctx_fillStyle c;
                         ctx_font := ctx_font c; ctx_textAlign := a |} stack
      | _ => if paints o then (o, c) :: painted ops c stack else painted ops c stack
      end
  end.

(** The painting calls of a cell other than the photo itself, i.e. the
    overlay decoration, each with the context it is made under. *)
Definition is_drawImage (o : Op) : bool :=
  match o with drawImage _ _ _ _ _ _ _ _ _ => true | _ => false end.

Definition decorations (i : nat) (img : Image) (currentFilter : Filter)
    (currentOverlay : Overlay) (c : Ctx) : list (Op * Ctx) :=
  List.filter (fun oc => negb (is_drawImage oc.1))
              (painted (cellOps i img currentFilter currentOverlay) c []).

(** The call that draws the title line of the footer. *)
Definition is_title (o : Op) : bool :=
  match o with
  | fillText text _ y =>
      String.eqb text "MEMORIES" && Qeq_bool y (inject_Z (totalHeight - 50))
  | _ => false
  end.


(** How many times the title line is drawn. *)
Fixpoint titles (ops : list Op) : nat :=
  match ops with
  | [] => 0
  | o :: ops => if is_title o then S (titles ops) else titles ops
  end.


(** The point [(x, y)] lies in the destination cell of photo [i]. *)
Definition inside_cell (i : nat) (x y : Z) : Prop :=
  sidePadding <= x <= sidePadding + photoWidth /\
  yPos i <= y <= yPos i + photoHeight.

(** *** Export *)

Record Download := {
  download : string;          (* the file name *)
  href_mime : Capture.Mime;   (* toDataURL() without arguments: PNG *)
  href_canvas : StripCanvas   (* the canvas that was encoded *)
}.

(** [downloadStrip], lines 181-187; [now] is [Date.now()]. *)
Definition downloadStrip (stripCanvasRef : option StripCanvas)
    (photos : list Sequence.Photo) (now : Z) : option Download :=
  match stripCanvasRef with
  | None => None
  | Some c =>
      if (length photos =? 0)%nat then None
      else Some {| download := "photo-strip-" +:+ pretty now +:+ ".png";
                   href_mime := Capture.image_png;
                   href_canvas := c |}
  end.

(** A click on "Download Film Strip", which exists in review only. *)
Definition clickDownload (s : Sequence.State) (stripCanvasRef : option StripCanvas)
    (now : Z) : option Download :=
  if Sequence.offered Sequence.ClickDownload s
  then downloadStrip stripCanvasRef (Sequence.photos s) now
  else None.

(** What the load of photo [i] adds to the canvas when it finishes:
    the calls of its [onload] callback, or nothing when the photo cannot
    be decoded ([onload] never runs). *)
Definition loadOps (date : string) (photos : list Sequence.Photo)
    (currentFilter : Filter) (currentOverlay : Overlay) (i : nat) : list Op :=
  match photos !! i ≫= decode with
  | Some img => onload i img currentFilter currentOverlay date
  | None => []
  end.



(** The destination top of the cell that load drew, if it drew one. *)
Definition cell_of (photos : list Sequence.Photo) (i : nat) : option Q :=
  match photos !! i ≫= decode with
  | Some _ => Some (inject_Z (yPos i))
  | None => None
  end.

(** *** The context a list of calls leaves behind *)

(** The current state and the stack of saved states after [ops], by the
    same rules as [painted]. *)
Fixpoint ctx_after (ops : list Op) (c : Ctx) (stack : list Ctx) : Ctx * list Ctx :=
  match ops with
  | [] => (c, stack)
  | o :: ops =>
      match o with
      | save => ctx_after ops c (c :: stack)
      | restore =>
          match stack with
          | c' :: stack => ctx_after ops c' stack
          | [] => ctx_after ops c []
          end
      | set_filter f =>
          ctx_after ops {| ctx_filter := f; ctx_fillStyle := ctx_fillStyle c;
                           ctx_font := ctx_font c; ctx_textAlign := ctx_textAlign c |} stack
      | set_fillStyle st =>
          ctx_after ops {| ctx_filter := ctx_filter c; ctx_fillStyle := st;
                           ctx_font := ctx_font c; ctx_textAlign := ctx_textAlign c |} stack
      | set_font f =>
          ctx_after ops {| ctx_filter := ctx_filter c; ctx_fillStyle := ctx_fillStyle c;
                           ctx_font := f; ctx_textAlign := ctx_textAlign c |} stack
      | set_textAlign a =>
          ctx_after ops {| ctx_filter := ctx_filter c; ctx_fillStyle := ctx_fillStyle c;
                           ctx_font := ctx_font c; ctx_textAlign := a |} stack
      | _ => ctx_after ops c stack
      end
  end.

(** The destination tops of all photos drawn by [ops], in drawing order. *)
Fixpoint cells_drawn (ops : list Op) : list Q :=
  match ops with
  | [] => []
  | drawImage _ _ _ _ _ _ dy _ _ :: ops => dy :: cells_drawn ops
  | _ :: ops => cells_drawn ops
  end.

(** The heart glyphs among painted calls (the text drawn in the 40px
    serif font): the baseline of each and the [textAlign] it is drawn
    with. *)
Definition is_heart (oc : Op * Ctx) : bool :=
  match oc.1 with
  | fillText text _ _ =>
      String.eqb text heart && String.eqb (ctx_font oc.2) "40px serif"
  | _ => false
  end.

Definition heart_aligns (ps : list (Op * Ctx)) : list (Q * string) :=
  omap (fun oc => match oc.1 with
                  | fillText _ _ y => Some (y, ctx_textAlign oc.2)
                  | _ => None
                  end) (List.filter is_heart ps).

(** The glyphs expected from loads finishing in the order [order] when
    the first is drawn with alignment [align]: two per photo that loads,
    and from the load of the third photo on they are centred. *)
Fixpoint glyphs (photos : list Sequence.Photo) (order : list nat)
    (align : string) : list (Q * string) :=
  match order with
  | [] => []
  | i :: order =>
      match cell_of photos i with
      | Some _ =>
          [ (inject_Z (yPos i + 50), align);
            (inject_Z (yPos i + photoHeight - 20), align) ]
          ++ glyphs photos order (if (i =? 2)%nat then "center" else align)
      | None => glyphs photos order align
      end
  end.

(** Where the selected filter is in force: a photo is drawn under the
    filter's [canvasFilter] (under ['none'] if that were an empty string),
    a filled path and a text under ['none'], a filled rectangle under one
    of the two. *)
Definition filter_at (currentFilter : Filter) (oc : Op * Ctx) : Prop :=
  match oc.1 with
  | drawImage _ _ _ _ _ _ _ _ _ =>
      ctx_filter oc.2 = if truthy (canvasFilter currentFilter)
                        then canvasFilter currentFilter else "none"
  | fill | fillText _ _ _ => ctx_filter oc.2 = "none"
  | _ => ctx_filter oc.2 = "none" \/ ctx_filter oc.2 = canvasFilter currentFilter
  end.

(** The rectangle of a [roundRect] call lies in the left or in the right
    margin of the strip and starts above the bottom edge. *)
Definition in_margin (o : Op) : Prop :=
  match o with
  | roundRect x y w h _ =>
      ((0 <= x)%Q /\ (x + w <= inject_Z sidePadding)%Q \/
       (inject_Z (sidePadding + photoWidth) <= x)%Q /\
       (x + w <= inject_Z totalWidth)%Q) /\
      (0 <= y)%Q /\ (y < inject_Z totalHeight)%Q
  | _ => True
  end.

End Strip.

(** ** Concrete inputs used by the examples below *)

Module Examples.

Import Sequence.

(** A 2 x 1 video frame whose pixel at [(x, y)] is [10 * x + y]. *)
Definition video2x1 : Capture.Video :=
  {| Capture.videoWidth := 2; Capture.videoHeight := 1;
     Capture.frame := fun x y => (10 * x + y)%Z |}.

(** A video element that has no frame yet. *)
Definition videoNotReady : Capture.Video :=
  {| Capture.videoWidth := 0; Capture.videoHeight := 0;
     Capture.frame := fun _ _ => 0%Z |}.

Definition env : Env := {| video := video2x1; random := (1 # 2)%Q |}.
Definition envNotReady : Env := {| video := videoNotReady; random := 0%Q |}.

(** The page once the camera stream has arrived. *)
Definition ready : State := setError None (setStream true init).

(** Three stored photos of 800 x 600, 1920 x 1080 and 600 x 800. *)
Definition photoA : Photo :=
  Some (Capture.Encoded Capture.image_jpeg (Some (95 # 100)%Q) 800 600 []).
Definition photoB : Photo :=
  Some (Capture.Encoded Capture.image_jpeg (Some (95 # 100)%Q) 1920 1080 []).
Definition photoC : Photo :=
  Some (Capture.Encoded Capture.image_jpeg (Some (95 # 100)%Q) 600 800 []).

Definition imageB : Strip.Image :=
  {| Strip.img_width := 1920; Strip.img_height := 1080; Strip.img_src := photoB |}.

(** [FILTERS[1]] and [OVERLAYS[3]]. *)
Definition warm : Catalog.Filter :=
  {| Catalog.filter_id := "warm"; Catalog.filter_name := "Golden Hour";
     Catalog.filter_class := "sepia-[.3] contrast-110 saturate-125 hue-rotate-[-10deg]";
     Catalog.canvasFilter := "sepia(30%) contrast(110%) saturate(125%) hue-rotate(-10deg)" |}.
Definition vignette : Catalog.Overlay :=
  {| Catalog.overlay_id := "vignette"; Catalog.overlay_name := "Vignette" |}.
Definition hearts : Catalog.Overlay :=
  {| Catalog.overlay_id := "hearts"; Catalog.overlay_name := "Hearts" |}.

(** The page at the end of a session started from [ready]. *)
Definition afterSession : State :=
  default init (ui_run (session 0 (fun _ => env)) ready).

(** The page on which the camera button was pressed and the camera was
    then refused. *)
Definition denied : State :=
  default init (ui_run [ClickStart env; CameraDenied] init).

(** A session whose camera button is pressed before the camera stream
    has arrived: the stream arrives after the first countdown has reached
    zero, and the video has a frame from then on. The first shot finds no
    video element mounted; its interval has handle 0, the delays and the
    later intervals 1, 2, 4, 5 and 7 (3 and 6 are the flash timeouts of
    the second and third shot). *)
Definition lateCamera : list Event :=
  [ ClickStart env;
    Fire 0 env; Fire 0 env; Fire 0 env;
    CameraGranted;
    Fire 1 env;
    Fire 2 env; Fire 2 env; Fire 2 env;
    Fire 4 env;
    Fire 5 env; Fire 5 env; Fire 5 env;
    Fire 7 env ].

(** The page at the end of that session. *)
Definition lateReview : State := default init (ui_run lateCamera init).

(** A page in review with the three photos above. *)
Definition reviewing : State :=
  setMode Review (setPhotos (fun _ => [photoA; photoB; photoC]) ready).

End Examples.

(** ** Facts about the catalogs *)

Module CatalogFacts.

Import Catalog.

Lemma initial_selection :
  FILTERS !! 0 = Some FILTERS_0 /\ OVERLAYS !! 0 = Some OVERLAYS_0.
Proof. split; reflexivity. Qed.

(** Entries are keyed by their id. *)
Lemma filter_ids_unique : NoDup (filter_id <$> FILTERS).
Proof. compute_done. Qed.

Lemma overlay_ids_unique : NoDup (overlay_id <$> OVERLAYS).
Proof. compute_done. Qed.

(** Every filter of the catalog has a non-empty [canvasFilter], so the
    test on line 242 always passes for a selected filter. *)
Lemma canvasFilter_truthy f : f ∈ FILTERS -> Strip.truthy (canvasFilter f) = true.
Proof.
  intros Hf. repeat (apply elem_of_cons in Hf as [-> | Hf]; [reflexivity|]).
  by apply elem_of_nil in Hf.
Qed.

Lemma examples_in_catalog :
  Examples.warm ∈ FILTERS /\ Examples.vignette ∈ OVERLAYS /\
  Examples.hearts ∈ OVERLAYS.
Proof. repeat split; compute_done. Qed.

End CatalogFacts.

(** ** Facts about the capture *)

Module CaptureFacts.

Import Capture.
Local Open Scope Z_scope.

(** The capture canvas is sized and cleared first, so what was on it
    before does not matter. *)
Lemma captureCanvas_fresh video c1 c2 :
  captureCanvas video c1 = captureCanvas video c2.
Proof. reflexivity. Qed.

Lemma captureCanvas_size video c :
  width (captureCanvas video c) = videoWidth video /\
  height (captureCanvas video c) = videoHeight video.
Proof. split; reflexivity. Qed.

(** After [translate(width, 0)] and [scale(-1, 1)] the unit column at [x]
    lands on device column [width - 1 - x]; rows stay where they are. *)
Lemma mirror_col video c x :
  dev_col (ctm (captureCanvas video c)) x = videoWidth video - 1 - x.
Proof. unfold dev_col; simpl. lia. Qed.

Lemma mirror_row video c y :
  dev_row (ctm (captureCanvas video c)) y = y.
Proof. unfold dev_row; simpl. lia. Qed.

(** The bitmap after the capture is the frame, flipped left to right. *)
Lemma captureCanvas_bitmap video c X Y p :
  0 < videoWidth video -> 0 < videoHeight video ->
  (X, Y, p) ∈ bitmap (captureCanvas video c) <->
  0 <= X < videoWidth video /\ 0 <= Y < videoHeight video /\
  p = frame video (videoWidth video - 1 - X) Y.
Proof.
  intros Hw Hh.
  pose proof (mirror_col video c) as Hcol.
  pose proof (mirror_row video c) as Hrow.
  unfold captureCanvas, drawImage in *.
  cbn [bitmap width height ctm set_width set_height translate scale app] in *.
  rewrite list_elem_of_filter. unfold on_canvas.
  cbn [fst snd width height scale translate set_width set_height].
  setoid_rewrite list_elem_of_bind. setoid_rewrite list_elem_of_bind.
  setoid_rewrite list_elem_of_singleton. setoid_rewrite elem_of_seqZ.
  setoid_rewrite Hcol. setoid_rewrite Hrow.
  split.
  - intros (Hin & uy & (ux & Heq & Hux) & Huy).
    rewrite !Z.div_mul in Heq by lia.
    injection Heq as -> -> ->.
    repeat split; try lia. f_equal; lia.
  - intros (HX & HY & ->). split.
    + apply Is_true_true. rewrite !andb_true_iff.
      rewrite !Z.leb_le, !Z.ltb_lt. lia.
    + exists Y. split; [|lia]. exists (videoWidth video - 1 - X). split; [|lia].
      rewrite !Z.div_mul by lia.
      replace (videoWidth video - 1 - (0 + (videoWidth video - 1 - X))) with X by lia.
      replace (0 + Y) with Y by lia.
      reflexivity.
Qed.

Lemma captureDataUrl_encoded video c :
  0 < videoWidth video -> 0 < videoHeight video ->
  captureDataUrl video c =
  Encoded image_jpeg (Some (95 # 100)%Q) (videoWidth video) (videoHeight video)
          (bitmap (captureCanvas video c)).
Proof.
  intros Hw Hh. unfold captureDataUrl, toDataURL.
  destruct (captureCanvas_size video c) as [-> ->].
  destruct (Z.eqb_spec (videoWidth video) 0); [lia|].
  destruct (Z.eqb_spec (videoHeight video) 0); [lia|]. reflexivity.
Qed.

Lemma capturePhoto_result env s video canvas :
  Sequence.videoRef env s = Some video -> Sequence.canvasRef s = Some canvas ->
  (Sequence.capturePhoto env s).1 = Some (captureDataUrl video canvas).
Proof. intros Hv Hc. unfold Sequence.capturePhoto. rewrite Hv, Hc. reflexivity. Qed.

(** C4 (as amended): with the video and the canvas mounted and a frame of
    positive size, [capturePhoto] returns an image of exactly the video's
    intrinsic width and height whose bitmap is the current frame flipped
    left to right; it is encoded as JPEG at quality 0.95, a lossy format,
    at capture time, and the export of the strip is the PNG one. *)
Theorem capturePhoto_mirrored_jpeg env s video canvas :
  Sequence.videoRef env s = Some video -> Sequence.canvasRef s = Some canvas ->
  0 < videoWidth video -> 0 < videoHeight video ->
  exists bm,
    (Sequence.capturePhoto env s).1 =
      Some (Encoded image_jpeg (Some (95 # 100)%Q)
                    (videoWidth video) (videoHeight video) bm) /\
    (forall X Y p, (X, Y, p) ∈ bm <->
       0 <= X < videoWidth video /\ 0 <= Y < videoHeight video /\
       p = frame video (videoWidth video - 1 - X) Y) /\
    lossless image_jpeg = false /\
    (forall ref photos now d,
       Strip.downloadStrip ref photos now = Some d ->
       lossless (Strip.href_mime d) = true).
Proof.
  intros Hv Hc Hw Hh. exists (bitmap (captureCanvas video canvas)).
  split; [|split; [|split]].
  - rewrite (capturePhoto_result _ _ _ _ Hv Hc). f_equal.
    by apply captureDataUrl_encoded.
  - intros X Y p. by apply captureCanvas_bitmap.
  - reflexivity.
  - intros ref photos now d. unfold Strip.downloadStrip.
    destruct ref; [|done]. destruct (length photos =? 0)%nat; [done|].
    by intros [= <-].
Qed.

(** The theorem on the 2 x 1 test frame, camera ready. *)
Lemma capturePhoto_mirrored_jpeg_witness :
  exists bm,
    (Sequence.capturePhoto Examples.env Examples.ready).1 =
      Some (Encoded image_jpeg (Some (95 # 100)%Q) 2 1 bm) /\
    (forall X Y p, (X, Y, p) ∈ bm <->
       0 <= X < 2 /\ 0 <= Y < 1 /\ p = 10 * (2 - 1 - X) + Y) /\
    lossless image_jpeg = false /\
    (forall ref photos now d,
       Strip.downloadStrip ref photos now = Some d ->
       lossless (Strip.href_mime d) = true).
Proof.
  apply (capturePhoto_mirrored_jpeg Examples.env Examples.ready
           Examples.video2x1 Capture.blank);
    [reflexivity | reflexivity | reflexivity | reflexivity].
Defined.

(** C4 as stated fails: the image [capturePhoto] returns for the 2 x 1
    test frame is not in a lossless encoding. *)
Lemma capturePhoto_not_lossless :
  ~ (forall env s d,
       (Sequence.capturePhoto env s).1 = Some d -> encoded_lossless d = true).
Proof.
  intros H.
  specialize (H Examples.env Examples.ready _ eq_refl). discriminate H.
Qed.

End CaptureFacts.

(** ** Facts about the capture sequence *)

Module SequenceFacts.

Import Sequence.

(** *** The timer table *)

Section Drivers.
Context (m : gmap nat Timer).

Lemma no_driver_insert i t :
  no_driver m -> drives_sequence t = false -> no_driver (<[i := t]> m).
Proof.
  intros Hm Ht j t' Hj. apply lookup_insert_Some in Hj as [[_ <-]|[_ Hj]]; eauto.
Qed.

Lemma no_driver_delete i : no_driver m -> no_driver (delete i m).
Proof. intros Hm j t' Hj. apply lookup_delete_Some in Hj as [_ Hj]; eauto. Qed.

Lemma sole_driver_fresh i t :
  no_driver m -> drives_sequence t = true -> sole_driver i t (<[i := t]> m).
Proof.
  intros Hm Ht. split; [apply lookup_insert_eq|]. split; [done|].
  intros j t' Hj Hd. apply lookup_insert_Some in Hj as [[? _]|[_ Hj]]; [done|].
  apply Hm in Hj. congruence.
Qed.

Lemma sole_driver_update i t t' :
  sole_driver i t m -> drives_sequence t' = true ->
  sole_driver i t' (<[i := t']> m).
Proof.
  intros (Hi & _ & Hu) Ht'. split; [apply lookup_insert_eq|]. split; [done|].
  intros j u Hj Hd. apply lookup_insert_Some in Hj as [[? _]|[_ Hj]]; eauto.
Qed.

Lemma sole_driver_delete i t : sole_driver i t m -> no_driver (delete i m).
Proof.
  intros (Hi & _ & Hu) j u Hj. apply lookup_delete_Some in Hj as [Hne Hj].
  destruct (drives_sequence u) eqn:Hd; [|done]. destruct Hne. symmetry. eauto.
Qed.

Lemma sole_driver_delete_other i t j u :
  sole_driver i t m -> m !! j = Some u -> drives_sequence u = false ->
  sole_driver i t (delete j m).
Proof.
  intros (Hi & Ht & Hu) Hj Hd. split.
  - apply lookup_delete_Some. split; [|done]. intros ->. congruence.
  - split; [done|]. intros k v Hk. apply lookup_delete_Some in Hk as [_ Hk]. eauto.
Qed.

Lemma sole_driver_is i t j u :
  sole_driver i t m -> m !! j = Some u -> drives_sequence u = true ->
  j = i /\ u = t.
Proof.
  intros (Hi & _ & Hu) Hj Hd. assert (j = i) as -> by eauto. split; congruence.
Qed.

(** Counting the drivers. *)
Lemma no_driver_count :
  no_driver m -> size (filter (fun it => drives_sequence it.2 = true) m) = 0.
Proof.
  intros Hm. apply map_size_empty_iff, map_empty_filter.
  intros i t Hi Hd. simpl in Hd. apply Hm in Hi. congruence.
Qed.

Lemma sole_driver_count i t :
  sole_driver i t m -> size (filter (fun it => drives_sequence it.2 = true) m) = 1.
Proof.
  intros (Hi & Ht & Hu).
  assert (filter (fun it : nat * Timer => drives_sequence it.2 = true) m = {[i := t]}) as ->.
  { apply map_eq. intros j. apply option_eq. intros u.
    rewrite map_lookup_filter_Some, lookup_singleton_Some. simpl. split.
    - intros [Hj Hd]. assert (j = i) as -> by eauto. split; congruence.
    - intros [<- <-]. done. }
  apply map_size_singleton.
Qed.

End Drivers.

(** *** The invariant holds in every state the page can be in *)

Lemma capturePhoto_frame env s :
  mode (capturePhoto env s).2 = mode s /\
  photos (capturePhoto env s).2 = photos s /\
  error (capturePhoto env s).2 = error s /\
  stream (capturePhoto env s).2 = stream s /\
  (timers (capturePhoto env s).2 = timers s \/
   timers (capturePhoto env s).2 = <[nextTimer s := FlashOff]> (timers s)).
Proof.
  unfold capturePhoto.
  destruct (videoRef env s), (canvasRef s); simpl; repeat split; auto.
Qed.

Lemma capturePhoto_no_driver env s :
  no_driver (timers s) -> no_driver (timers (capturePhoto env s).2).
Proof.
  intros Hn.
  destruct (capturePhoto_frame env s) as (_ & _ & _ & _ & [-> | ->]); [done|].
  by apply no_driver_insert.
Qed.

Lemma Inv_init : Inv init.
Proof.
  split; [|done]. intros i t Hi. simpl in Hi. by rewrite lookup_empty in Hi.
Qed.

(** A pending driver can only be found in countdown mode, and then it is
    the one the invariant speaks of. *)
Lemma Inv_driver s id t :
  Inv s -> timers s !! id = Some t -> drives_sequence t = true ->
  mode s = Countdown /\ phase t (photos s) /\ sole_driver id t (timers s).
Proof.
  intros HI Hid Hd. unfold Inv in HI. destruct (mode s).
  - destruct HI as [Hn _]. apply Hn in Hid. congruence.
  - destruct HI as (i & u & Hsole & Hph).
    destruct (sole_driver_is _ _ _ _ _ Hsole Hid Hd) as [-> ->]. done.
  - destruct HI as [Hn _]. apply Hn in Hid. congruence.
Qed.

Lemma Inv_fire id env s s' : Inv s -> fire id env s = Some s' -> Inv s'.
Proof.
  intros HI Hs. unfold fire in Hs.
  destruct (timers s !! id) as [[count timer|count|]|] eqn:Hid; simplify_eq.
  - (* the countdown interval *)
    destruct (Inv_driver _ _ _ HI Hid eq_refl) as (Hm & (Hlen & Hc & Ht) & Hsole).
    unfold intervalCallback. destruct (timer - 1 =? 0)%Z eqn:Hz.
    + set (s0 := clearInterval id _).
      pose proof (capturePhoto_frame env s0) as (Hm1 & Hp1 & _).
      pose proof (capturePhoto_no_driver env s0) as Hnd.
      destruct (capturePhoto env s0) as [photo s1].
      simpl in Hm1, Hp1, Hnd.
      unfold Inv; simpl. rewrite Hm1, Hm. eexists _, _. split.
      { apply sole_driver_fresh; [|done]. apply Hnd.
        eapply sole_driver_delete, sole_driver_update; done. }
      simpl. rewrite Hp1, length_app. simpl. lia.
    + unfold Inv; simpl. rewrite Hm. eexists _, _. split.
      { eapply sole_driver_update; done. }
      simpl. apply Z.eqb_neq in Hz. lia.
  - (* the delay before the next shot *)
    destruct (Inv_driver _ _ _ HI Hid eq_refl) as (Hm & (Hlen & Hc) & Hsole).
    unfold runSequence. destruct (3 <=? count + 1) eqn:Hle.
    + apply Nat.leb_le in Hle. unfold Inv; simpl. split; [|lia].
      by eapply sole_driver_delete.
    + apply Nat.leb_gt in Hle. unfold Inv; simpl. rewrite Hm.
      eexists _, _. split.
      { apply sole_driver_fresh; [|done]. by eapply sole_driver_delete. }
      simpl. lia.
  - (* the end of the flash *)
    unfold Inv in *; simpl. destruct (mode s).
    + destruct HI as [Hn ?]. split; [|done]. by apply no_driver_delete.
    + destruct HI as (i & t & Hsole & Hph). exists i, t. split; [|done].
      by eapply sole_driver_delete_other.
    + destruct HI as [Hn ?]. split; [|done]. by apply no_driver_delete.
Qed.

Lemma offered_mode_idle e s :
  offered e s = true ->
  match e with ClickStart _ | ClickFilter _ | ClickOverlay _ => mode s = Idle
          | ClickReset | ClickDownload => mode s = Review
          | _ => True end.
Proof.
  destruct e; simpl; try done; rewrite ?andb_true_iff, ?bool_decide_eq_true;
    tauto.
Qed.

Lemma Inv_step e s s' : Inv s -> ui_step e s = Some s' -> Inv s'.
Proof.
  unfold ui_step. destruct (offered e s) eqn:Hoff; [|done].
  apply offered_mode_idle in Hoff.
  destruct e; simpl in *; intros HI Hs; simplify_eq; try exact HI.
  - (* start *)
    unfold Inv in HI. rewrite Hoff in HI. destruct HI as [Hn _].
    unfold Inv; simpl. eexists _, _. split; [by apply sole_driver_fresh|].
    simpl. lia.
  - (* reset *)
    unfold Inv in HI. rewrite Hoff in HI. destruct HI as [Hn _]. by split.
  - by eapply Inv_fire.
Qed.

Lemma reachable_Inv s : reachable s -> Inv s.
Proof. induction 1; eauto using Inv_init, Inv_step. Qed.

Lemma Inv_count s :
  Inv s ->
  countdown_timers s = match mode s with Countdown => 1 | _ => 0 end.
Proof.
  unfold Inv, countdown_timers. destruct (mode s).
  - intros [Hn _]. by apply no_driver_count.
  - intros (i & t & Hsole & _). by eapply sole_driver_count.
  - intros [Hn _]. by apply no_driver_count.
Qed.

Lemma reachable_ready : reachable Examples.ready.
Proof. eapply (reachable_step CameraGranted); [apply reachable_init | reflexivity]. Qed.

Lemma ui_run_reachable es s s' :
  reachable s -> ui_run es s = Some s' -> reachable s'.
Proof.
  revert s. induction es as [|e es IH]; simpl; intros s Hr Hs.
  - by injection Hs as <-.
  - destruct (ui_step e s) as [s1|] eqn:He; [|done]. simpl in Hs.
    eapply IH; [|exact Hs]. by eapply reachable_step.
Qed.

(** *** Handles are fresh *)

Lemma fresh_register t s : fresh s -> fresh (register t s).
Proof.
  intros Hf id. unfold register; simpl. rewrite lookup_insert_is_Some.
  intros [<- | [_ H]]; [lia|]. apply Hf in H. lia.
Qed.

Lemma fresh_delete id s : fresh s -> fresh (setTimers (delete id (timers s)) s).
Proof.
  intros Hf j. simpl. rewrite lookup_delete_is_Some. intros [_ H]. by apply Hf.
Qed.

Lemma fresh_update id t s :
  is_Some (timers s !! id) -> fresh s -> fresh (setTimers (<[id := t]> (timers s)) s).
Proof.
  intros Hid Hf j. simpl. rewrite lookup_insert_is_Some.
  intros [<- | [_ H]]; by apply Hf.
Qed.

Lemma fresh_capturePhoto env s : fresh s -> fresh (capturePhoto env s).2.
Proof.
  intros Hf. unfold capturePhoto.
  destruct (videoRef env s), (canvasRef s); simpl; try done.
  by apply (fresh_register FlashOff (setFlashActive true (setCanvas _ s))).
Qed.

Lemma fresh_step e s s' : fresh s -> ui_step e s = Some s' -> fresh s'.
Proof.
  intros Hf. unfold ui_step. destruct (offered e s); [|done].
  destruct e; simpl; intros Hs; simplify_eq; try exact Hf.
  - by apply (fresh_register _ (setCountdown _ (setCurrentPrompt _ (setPhotos _ (setMode _ s))))).
  - unfold fire in Hs.
    destruct (timers s !! id) as [[count timer|count|]|] eqn:Hid; simplify_eq.
    + unfold intervalCallback.
      assert (fresh (setCountdown (Some (timer - 1)%Z)
                (setTimers (<[id := IntervalTick count (timer - 1)]> (timers s)) s)))
        as Hf1 by (apply (fresh_update id); [by eexists | done]).
      destruct (timer - 1 =? 0)%Z; [|done].
      apply (fresh_delete id) in Hf1.
      apply (fresh_capturePhoto env) in Hf1.
      destruct (capturePhoto env _) as [photo s1]. simpl in Hf1.
      by apply (fresh_register _ (setPhotos _ s1)).
    + apply (fresh_delete id) in Hf. unfold runSequence.
      destruct (3 <=? count + 1); [done|].
      by apply (fresh_register _ (setCountdown _ (setCurrentPrompt _ _))).
    + by apply (fresh_delete id) in Hf.
Qed.

(** Handles are never reused while pending, so registering a timer
    never overwrites one. *)
Lemma handles_fresh s : reachable s -> fresh s.
Proof.
  induction 1 as [|e s s' _ IH Hs]; [|by eapply fresh_step].
  intros id. simpl. rewrite lookup_empty. by intros [? ?].
Qed.
(** *** Runs on which every capture succeeds *)

Lemma all_frames_step e s s' :
  Inv s -> all_frames s -> live e -> ui_step e s = Some s' -> all_frames s'.
Proof.
  intros HI (Hs & He & Hf). unfold ui_step.
  destruct (offered e s) eqn:Hoff; [|done].
  destruct e; simpl in *; intros Hl Hstep; simplify_eq;
    try (by repeat split).
  - rewrite Hs in Hoff. done.
  - unfold fire in Hstep.
    destruct (timers s !! id) as [[count timer|count|]|] eqn:Hid; simplify_eq.
    + destruct (Inv_driver _ _ _ HI Hid eq_refl) as (Hm & _ & _).
      unfold intervalCallback. destruct (timer - 1 =? 0)%Z; [|by repeat split].
      unfold capturePhoto, videoRef, canvasRef; simpl. rewrite He, Hm, Hs.
      repeat split; simpl; try done.
      apply Forall_app. split; [done|]. constructor; [|done].
      destruct Hl as [Hw Hh].
      change (Capture.toDataURL Capture.image_jpeg (Some (95 # 100)%Q)
                (Capture.captureCanvas (video env) (canvas s)))
        with (Capture.captureDataUrl (video env) (canvas s)).
      by rewrite (CaptureFacts.captureDataUrl_encoded _ _ Hw Hh).
    + unfold runSequence. destruct (3 <=? count + 1); by repeat split.
    + by repeat split.
Qed.

Lemma all_frames_run es s s' :
  reachable s -> all_frames s -> Forall live es -> ui_run es s = Some s' ->
  all_frames s'.
Proof.
  revert s. induction es as [|e es IH]; simpl; intros s Hr Ha Hl Hrun.
  - by injection Hrun as <-.
  - destruct (ui_step e s) as [s1|] eqn:He; [|done]. simpl in Hrun.
    apply Forall_cons in Hl as [Hl1 Hl2].
    eapply (IH s1); [by eapply reachable_step | | done | done].
    eapply all_frames_step; [by apply reachable_Inv | done | done | done].
Qed.

(** *** One session, step by step *)

Lemma step_start env s :
  mode s = Idle -> error s = None -> stream s = true ->
  exists s', ui_step (ClickStart env) s = Some s' /\ ticking 0 3 [] s' /\
             nextTimer s' = S (nextTimer s).
Proof.
  intros Hm He Hs. unfold ui_step; simpl. rewrite Hm, He; simpl.
  eexists; split; [reflexivity|]. split; [|done].
  repeat split; simpl; try done. eexists; split; [done|]. apply lookup_insert_eq.
Qed.

Lemma step_tick env count timer ps s id :
  ticking count timer ps s -> nextTimer s = S id -> (timer - 1)%Z <> 0%Z ->
  exists s', ui_step (Fire id env) s = Some s' /\
             ticking count (timer - 1) ps s' /\ nextTimer s' = nextTimer s.
Proof.
  intros (Hm & He & Hs & Hp & id' & Hn & Hid) Hn' Hz.
  assert (id' = id) as -> by congruence.
  unfold ui_step; cbn [offered handle]; unfold fire; rewrite Hid. unfold intervalCallback.
  apply Z.eqb_neq in Hz. rewrite Hz.
  eexists; split; [reflexivity|]. split; [|done].
  repeat split; simpl; try done. exists id; split; [done|]. apply lookup_insert_eq.
Qed.

Lemma step_capture env count ps s id :
  ticking count 1 ps s -> nextTimer s = S id ->
  exists s', ui_step (Fire id env) s = Some s' /\
             waiting count (ps ++ [Some (Capture.captureDataUrl (video env) Capture.blank)]) s' /\
             nextTimer s' = S (S (nextTimer s)).
Proof.
  intros (Hm & He & Hs & Hp & id' & Hn & Hid) Hn'.
  assert (id' = id) as -> by congruence.
  unfold ui_step; cbn [offered handle]; unfold fire; rewrite Hid.
  unfold intervalCallback, capturePhoto, videoRef, canvasRef; simpl.
  rewrite He, Hm, Hs. simpl.
  eexists; split; [reflexivity|]. split; [|done].
  repeat split; simpl; try done.
  - by rewrite Hp.
  - eexists; split; [done|]. apply lookup_insert_eq.
Qed.

Lemma step_next env count ps s id :
  waiting count ps s -> nextTimer s = S id -> count + 1 < 3 ->
  exists s', ui_step (Fire id env) s = Some s' /\
             ticking (count + 1) 3 ps s' /\ nextTimer s' = S (nextTimer s).
Proof.
  intros (Hm & He & Hs & Hp & id' & Hn & Hid) Hn' Hc.
  assert (id' = id) as -> by congruence.
  unfold ui_step; cbn [offered handle]; unfold fire; rewrite Hid. unfold runSequence.
  apply Nat.leb_gt in Hc. rewrite Hc.
  eexists; split; [reflexivity|]. split; [|done].
  repeat split; simpl; try done. eexists; split; [done|]. apply lookup_insert_eq.
Qed.

Lemma step_last env ps s id :
  waiting 2 ps s -> nextTimer s = S id ->
  exists s', ui_step (Fire id env) s = Some s' /\ mode s' = Review /\ photos s' = ps.
Proof.
  intros (Hm & He & Hs & Hp & id' & Hn & Hid) Hn'.
  assert (id' = id) as -> by congruence.
  unfold ui_step; cbn [offered handle]; unfold fire; rewrite Hid. eexists; split; [reflexivity|]. done.
Qed.

Lemma ticking_mode count timer ps s :
  ticking count timer ps s -> mode s = Countdown /\ photos s = ps.
Proof. intros (? & _ & _ & ? & _). done. Qed.

Lemma waiting_mode count ps s :
  waiting count ps s -> mode s = Countdown /\ photos s = ps.
Proof. intros (? & _ & _ & ? & _). done. Qed.

(** The whole session from an idle page with a live camera. *)
Lemma session_trace envs s :
  mode s = Idle -> error s = None -> stream s = true ->
  let shot k := Some (Capture.captureDataUrl (video (envs k)) Capture.blank) in
  exists s', ui_run (session (nextTimer s) envs) s = Some s' /\
    mode s' = Review /\ photos s' = [shot 3; shot 7; shot 11] /\
    mode <$> ui_trace (session (nextTimer s) envs) s
      = replicate 12 Countdown ++ [Review] /\
    (fun x => length (photos x)) <$> ui_trace (session (nextTimer s) envs) s
      = [0; 0; 0; 1; 1; 1; 1; 2; 2; 2; 2; 3; 3].
Proof.
  intros Hm He Hs shot. set (n := nextTimer s).
  destruct (step_start (envs 0) s Hm He Hs) as (s0 & E0 & T0 & N0). fold n in N0.
  destruct (step_tick (envs 1) _ _ _ _ n T0 N0) as (s1 & E1 & T1 & N1); [done|].
  rewrite N0 in N1.
  destruct (step_tick (envs 2) _ _ _ _ n T1 N1) as (s2 & E2 & T2 & N2); [done|].
  rewrite N1 in N2.
  destruct (step_capture (envs 3) _ _ _ n T2 N2) as (s3 & E3 & T3 & N3).
  rewrite N2 in N3. replace (S (S (S n))) with (S (n + 2)) in N3 by lia.
  destruct (step_next (envs 4) _ _ _ _ T3 N3) as (s4 & E4 & T4 & N4); [lia|].
  rewrite N3 in N4. replace (S (S (n + 2))) with (S (n + 3)) in N4 by lia.
  destruct (step_tick (envs 5) _ _ _ _ _ T4 N4) as (s5 & E5 & T5 & N5); [done|].
  rewrite N4 in N5.
  destruct (step_tick (envs 6) _ _ _ _ _ T5 N5) as (s6 & E6 & T6 & N6); [done|].
  rewrite N5 in N6.
  destruct (step_capture (envs 7) _ _ _ _ T6 N6) as (s7 & E7 & T7 & N7).
  rewrite N6 in N7. replace (S (S (S (n + 3)))) with (S (n + 5)) in N7 by lia.
  destruct (step_next (envs 8) _ _ _ _ T7 N7) as (s8 & E8 & T8 & N8); [lia|].
  rewrite N7 in N8. replace (S (S (n + 5))) with (S (n + 6)) in N8 by lia.
  destruct (step_tick (envs 9) _ _ _ _ _ T8 N8) as (s9 & E9 & T9 & N9); [done|].
  rewrite N8 in N9.
  destruct (step_tick (envs 10) _ _ _ _ _ T9 N9) as (s10 & E10 & T10 & N10); [done|].
  rewrite N9 in N10.
  destruct (step_capture (envs 11) _ _ _ _ T10 N10) as (s11 & E11 & T11 & N11).
  rewrite N10 in N11. replace (S (S (S (n + 6)))) with (S (n + 8)) in N11 by lia.
  destruct (step_last (envs 12) _ _ _ T11 N11) as (s12 & E12 & M12 & P12).
  exists s12. unfold session, ui_run, ui_trace.
  rewrite E0; simpl. rewrite E1; simpl. rewrite E2; simpl. rewrite E3; simpl.
  rewrite E4; simpl. rewrite E5; simpl. rewrite E6; simpl. rewrite E7; simpl.
  rewrite E8; simpl. rewrite E9; simpl. rewrite E10; simpl. rewrite E11; simpl.
  rewrite E12; simpl.
  apply ticking_mode in T0 as [-> ->], T1 as [-> ->], T2 as [-> ->],
    T4 as [-> ->], T5 as [-> ->], T6 as [-> ->], T8 as [-> ->], T9 as [-> ->],
    T10 as [-> ->].
  apply waiting_mode in T3 as [-> ->], T7 as [-> ->], T11 as [-> ->].
  rewrite M12, P12. done.
Qed.











(** *** The claims about the sequence *)



(** The handlers themselves cancel nothing: the guarantee above rests on
    the two mode gates. Were [startSequence] called while the countdown
    of an earlier call is pending (its interval, handle 0, shows 2), that
    interval would stay in place next to the new one (handle 1) and two
    more of its ticks would put a frame into the new photo list;
    [resetBooth] would leave it pending in the same way. The page offers
    neither button in that state. *)
Lemma restart_keeps_stale_timer :
  exists s1 s2 s3 s4 p,
    ui_run [ClickStart Examples.env; Fire 0 Examples.env] Examples.ready = Some s1 /\
    offered (ClickStart Examples.env) s1 = false /\
    offered ClickReset s1 = false /\
    handle (ClickStart Examples.env) s1 = Some s2 /\
    photos s2 = [] /\
    timers s2 !! 0 = Some (IntervalTick 0 2) /\
    timers s2 !! 1 = Some (IntervalTick 0 3) /\
    countdown_timers s2 = 2 /\
    handle_run [Fire 0 Examples.env; Fire 0 Examples.env] s2 = Some s3 /\
    photos s3 = [Some p] /\
    timers s3 !! 1 = Some (IntervalTick 0 3) /\
    handle ClickReset s1 = Some s4 /\
    timers s4 !! 0 = Some (IntervalTick 0 2).
Proof.
  do 5 eexists. repeat apply conj; vm_compute; reflexivity.
Qed.

(** What the interval callback does when the countdown reaches zero and
    no video element is mounted: [undefined] is appended and the delay
    before the next shot is started all the same. *)
Lemma failed_capture_advances id count env s :
  timers s !! id = Some (IntervalTick count 1) -> videoRef env s = None ->
  exists s', fire id env s = Some s' /\
    photos s' = photos s ++ [None] /\
    timers s' !! nextTimer s = Some (NextShot count) /\
    mode s' = mode s.
Proof.
  intros Hid Hv. unfold fire. rewrite Hid. unfold intervalCallback.
  change (1 - 1 =? 0)%Z with true. cbv iota.
  set (s0 := clearInterval id _).
  assert (capturePhoto env s0 = (None, s0)) as ->.
  { unfold capturePhoto.
    replace (videoRef env s0) with (videoRef env s) by reflexivity.
    by rewrite Hv. }
  eexists; split; [reflexivity|]. simpl. split; [done|]. split; [|done].
  apply lookup_insert_eq.
Qed.

(** C2, the code at the failing input: the camera button is pressed
    before the camera stream has arrived, so no video element is mounted
    when the three countdowns reach zero. Each capture returns
    [undefined], which is appended, the sequence goes on, and the page
    ends in review with three placeholders. With a mounted video that has
    no frame yet (size 0 x 0) the same happens with the empty ["data:,"]. *)
Lemma unavailable_source_reaches_review :
  (exists s,
     ui_run [ClickStart Examples.env;
             Fire 0 Examples.env; Fire 0 Examples.env; Fire 0 Examples.env;
             Fire 1 Examples.env;
             Fire 2 Examples.env; Fire 2 Examples.env; Fire 2 Examples.env;
             Fire 3 Examples.env;
             Fire 4 Examples.env; Fire 4 Examples.env; Fire 4 Examples.env;
             Fire 5 Examples.env] init = Some s /\
     mode s = Review /\ photos s = [None; None; None]) /\
  (exists s,
     ui_run (session 0 (fun _ => Examples.envNotReady)) Examples.ready = Some s /\
     mode s = Review /\
     photos s = [Some Capture.EmptyData; Some Capture.EmptyData;
                 Some Capture.EmptyData]).
Proof.
  split; eexists; repeat apply conj; vm_compute; reflexivity.
Qed.

(** C3, the code at a failing input: the camera button is pressed before
    the camera stream has arrived and the stream arrives during the first
    delay. The first shot returns [undefined], which is appended like a
    frame; the other two shots succeed (the video has a frame at every
    event). The page enters review with three entries of which only two
    are captured frames: review is reached after two successful captures.
    This is the defect of C2 seen from the end of the sequence. *)
Lemma review_with_missing_frame :
  Forall live Examples.lateCamera /\
  exists s,
    ui_run Examples.lateCamera init = Some s /\
    reachable s /\
    mode s = Review /\
    photos s = [ None;
                 Some (Capture.captureDataUrl Examples.video2x1 Capture.blank);
                 Some (Capture.captureDataUrl Examples.video2x1 Capture.blank) ] /\
    is_frame <$> photos s = [false; true; true] /\
    length (List.filter is_frame (photos s)) = 2.
Proof.
  split.
  - unfold Examples.lateCamera.
    repeat first [apply Forall_nil_2 | apply Forall_cons_2];
      try exact I; split; reflexivity.
  - exists Examples.lateReview.
    assert (ui_run Examples.lateCamera init = Some Examples.lateReview) as Hrun
      by (vm_compute; reflexivity).
    split; [exact Hrun|].
    split; [exact (ui_run_reachable _ _ _ reachable_init Hrun)|].
    repeat apply conj; vm_compute; reflexivity.
Qed.

Lemma review_step_keeps_photos e s s' :
  Inv s -> mode s = Review -> ui_step e s = Some s' ->
  photos s' = photos s \/ (e = ClickReset /\ photos s' = [] /\ mode s' = Idle).
Proof.
  intros HI Hm. unfold ui_step. destruct (offered e s) eqn:Hoff; [|done].
  apply offered_mode_idle in Hoff.
  destruct e; simpl; intros Hs; simplify_eq; auto; try congruence.
  unfold fire in Hs.
  destruct (timers s !! id) as [t|] eqn:Hid; [|done].
  destruct (drives_sequence t) eqn:Hd.
  - destruct (Inv_driver _ _ _ HI Hid Hd) as [? _]. congruence.
  - destruct t; try discriminate Hd. injection Hs as <-. by left.
Qed.

(** What does hold of review: in every state the page can reach, review
    mode means exactly three entries in the photo list and no timer left
    that could capture, and no event changes the list there except a
    reset, which empties it. On every run from a state in which the
    camera stream is there already, during which the video has a frame,
    the entries are real frames. And from an idle page with a live
    camera the session of thirteen events runs to the end: the mode is
    countdown after each of the first twelve and review after the last,
    the list grows to 1, 2, 3 at the three captures (events 3, 7, 11),
    and its three entries are real frames. *)
Lemma review_after_three_captures s :
  reachable s ->
  (mode s = Review ->
     length (photos s) = 3 /\ countdown_timers s = 0 /\
     forall e s', ui_step e s = Some s' ->
       photos s' = photos s \/ (e = ClickReset /\ photos s' = [] /\ mode s' = Idle)) /\
  (all_frames s ->
   forall es s', Forall live es -> ui_run es s = Some s' ->
     Forall (fun p => is_frame p = true) (photos s') /\
     (mode s' = Review -> length (photos s') = 3)) /\
  (mode s = Idle -> error s = None -> stream s = true ->
   forall envs,
     (forall k, (0 < Capture.videoWidth (video (envs k)))%Z /\
                (0 < Capture.videoHeight (video (envs k)))%Z) ->
     exists s',
       ui_run (session (nextTimer s) envs) s = Some s' /\
       mode s' = Review /\ length (photos s') = 3 /\
       Forall (fun p => is_frame p = true) (photos s') /\
       mode <$> ui_trace (session (nextTimer s) envs) s
         = replicate 12 Countdown ++ [Review] /\
       (fun x => length (photos x)) <$> ui_trace (session (nextTimer s) envs) s
         = [0; 0; 0; 1; 1; 1; 1; 2; 2; 2; 2; 3; 3]).
Proof.
  intros Hr. pose proof (reachable_Inv s Hr) as HI. split; [|split].
  - intros Hm. pose proof (Inv_count s HI) as Hc. rewrite Hm in Hc.
    split; [|split; [done|]].
    + unfold Inv in HI. rewrite Hm in HI. tauto.
    + intros e s'. by apply review_step_keeps_photos.
  - intros Ha es s' Hl Hrun.
    destruct (all_frames_run es s s' Hr Ha Hl Hrun) as (_ & _ & Hf).
    split; [done|]. intros Hm.
    pose proof (reachable_Inv s' (ui_run_reachable es s s' Hr Hrun)) as HI'.
    unfold Inv in HI'. rewrite Hm in HI'. tauto.
  - intros Hm He Hs envs Hsize.
    destruct (session_trace envs s Hm He Hs) as (s' & Hrun & Hm' & Hp & Ht1 & Ht2).
    exists s'. rewrite Hp. repeat split; try done.
    repeat constructor;
      match goal with |- context [envs ?k] =>
        destruct (Hsize k) as [Hw Hh];
        by rewrite (CaptureFacts.captureDataUrl_encoded _ _ Hw Hh) end.
Qed.

(** The lemma on the page at the end of a session, and on the page with
    the camera ready from which that session starts. *)
Lemma review_after_three_captures_witness :
  (length (photos Examples.afterSession) = 3 /\
   countdown_timers Examples.afterSession = 0) /\
  (forall es s', Forall live es -> ui_run es Examples.ready = Some s' ->
     Forall (fun p => is_frame p = true) (photos s') /\
     (mode s' = Review -> length (photos s') = 3)) /\
  (exists s',
     ui_run (session 0 (fun _ => Examples.env)) Examples.ready = Some s' /\
     mode s' = Review /\ length (photos s') = 3 /\
     Forall (fun p => is_frame p = true) (photos s')).
Proof.
  split; [|split].
  - destruct (review_after_three_captures Examples.afterSession) as [H _].
    { apply (ui_run_reachable (session 0 (fun _ => Examples.env)) Examples.ready);
        [apply reachable_ready | vm_compute; reflexivity]. }
    destruct H as (H3 & H0 & _); [vm_compute; reflexivity|]. by split.
  - destruct (review_after_three_captures Examples.ready reachable_ready)
      as (_ & H & _).
    apply H. by repeat split.
  - destruct (review_after_three_captures Examples.ready reachable_ready)
      as (_ & _ & H).
    destruct (H eq_refl eq_refl eq_refl (fun _ => Examples.env))
      as (s' & Hrun & Hm & Hl & Hf & _).
    { intros _. split; reflexivity. }
    exists s'. by repeat apply conj.
Defined.

End SequenceFacts.

(** ** Facts about the photo strip *)

Module StripFacts.

Import Catalog Strip.

(** *** The crop rectangle *)

Section Crop.
Local Open Scope Q_scope.









End Crop.

(** *** The canvas of the strip *)

Section Canvas.
Local Open Scope Z_scope.

Lemma renderStrip_Some mode photos f o ref c loads :
  renderStrip mode photos f o ref = Some (c, loads) ->
  mode = Sequence.Review /\ length photos = 3%nat /\ is_Some ref /\
  c = {| width := totalWidth; height := totalHeight;
         ops := [ set_fillStyle (Color "#111111");
                  fillRect 0 0 (inject_Z totalWidth) (inject_Z totalHeight) ]
                ++ sprockets (Z.to_nat totalHeight) 20 |} /\
  loads = imap (fun i photoData =>
                  {| load_index := i; load_src := photoData;
                     load_filter := f; load_overlay := o |}) photos.
Proof.
  unfold renderStrip. destruct ref; [|done].
  destruct (bool_decide (mode = Sequence.Review)) eqn:Hm; [|done].
  destruct (length photos =? 3)%nat eqn:Hl; [|done].
  simpl. intros [= <- <-].
  apply bool_decide_eq_true in Hm. apply Nat.eqb_eq in Hl. done.
Qed.

(** C6: whenever the effect renders, the strip canvas is
    [photoWidth + 2 * sidePadding] wide and
    [topPadding + 3 * photoHeight + 2 * gap + bottomPadding] high, whatever
    the photos, the filter, the overlay and the previous canvas are; with
    the constants of the code that is 760 x 1570. *)
Theorem strip_canvas_size mode photos f o ref c loads :
  renderStrip mode photos f o ref = Some (c, loads) ->
  width c = photoWidth + 2 * sidePadding /\
  height c = topPadding + 3 * photoHeight + 2 * gap + bottomPadding /\
  photoWidth = 600 /\ photoHeight = 450 /\ gap = 30 /\ sidePadding = 80 /\
  topPadding = 60 /\ bottomPadding = 100 /\
  width c = 760 /\ height c = 1570.
Proof.
  intros H. apply renderStrip_Some in H as (_ & _ & _ & -> & _).
  cbn [width height]. repeat apply conj; reflexivity.
Qed.

(** The theorem on the page in review with three photos. *)
Lemma strip_canvas_size_witness :
  exists c loads,
    stripEffect Examples.reviewing (Some blank) = Some (c, loads) /\
    width c = 760 /\ height c = 1570.
Proof.
  destruct (stripEffect Examples.reviewing (Some blank)) as [[c loads]|] eqn:E.
  - exists c, loads. split; [reflexivity|].
    destruct (strip_canvas_size _ _ _ _ _ _ _ E) as (_ & _ & _ & _ & _ & _ & _ & _ & Hw & Hh).
    by split.
  - vm_compute in E. discriminate E.
Defined.

End Canvas.

(** *** The overlay pass *)

Section Overlay.
Local Open Scope Z_scope.

Lemma overlayOps_hearts o y :
  overlay_id o = "hearts" ->
  overlayOps o y =
    [ set_filter "none";
      set_fillStyle (Color "rgba(255, 150, 150, 0.7)");
      set_font "40px serif";
      fillText heart (inject_Z (sidePadding + 20)) (inject_Z (y + 50));
      fillText heart (inject_Z (sidePadding + photoWidth - 50))
                     (inject_Z (y + photoHeight - 20)) ].
Proof. intros H. unfold overlayOps. rewrite H. reflexivity. Qed.

Lemma overlayOps_vignette o y :
  overlay_id o = "vignette" ->
  overlayOps o y =
    [ set_fillStyle
        (RadialGradient
           (inject_Z sidePadding + inject_Z photoWidth / 2)
           (inject_Z y + inject_Z photoHeight / 2)
           (inject_Z photoHeight * (3 # 10))
           (inject_Z sidePadding + inject_Z photoWidth / 2)
           (inject_Z y + inject_Z photoHeight / 2)
           (inject_Z photoHeight * (8 # 10))
           [ (0%Q, "rgba(0,0,0,0)"); (1%Q, "rgba(0,0,0,0.6)") ]);
      fillRect (inject_Z sidePadding) (inject_Z y)
               (inject_Z photoWidth) (inject_Z photoHeight) ].
Proof. intros H. unfold overlayOps. rewrite H. reflexivity. Qed.

Lemma overlayOps_other o y :
  overlay_id o <> "hearts" -> overlay_id o <> "vignette" -> overlayOps o y = [].
Proof.
  intros H1 H2. unfold overlayOps.
  apply String.eqb_neq in H1, H2. by rewrite H1, H2.
Qed.

Lemma yPos_nonneg i : 0 <= yPos i.
Proof. unfold yPos, topPadding, photoHeight, gap. lia. Qed.

(** C7 (as amended): the decoration of a cell is decided by the overlay's
    id. For hearts it is two glyphs, at 20 right of and 50 below the
    cell's top left corner and at 50 left of and 20 above its bottom right
    corner, drawn with [ctx.filter] set to ['none']; each anchor, and the
    far corner of a 40px box standing on the baseline at the anchor, lies
    inside the cell. For the vignette it is one rectangle, exactly the
    cell, filled with a radial gradient whose two circles share the
    cell's centre and that runs from transparent to 60 percent black;
    the filter of the photo is still in force for it. For every other id
    nothing is drawn. *)
Theorem overlay_decorations i img f o c :
  let y := yPos i in
  let active := if truthy (canvasFilter f) then canvasFilter f else ctx_filter c in
  (overlay_id o = "hearts" ->
     exists k,
       decorations i img f o c =
         [ (fillText heart (inject_Z (sidePadding + 20)) (inject_Z (y + 50)), k);
           (fillText heart (inject_Z (sidePadding + photoWidth - 50))
                     (inject_Z (y + photoHeight - 20)), k) ] /\
       ctx_filter k = "none" /\
       inside_cell i (sidePadding + 20) (y + 50) /\
       inside_cell i (sidePadding + 20 + 40) (y + 50 - 40) /\
       inside_cell i (sidePadding + photoWidth - 50) (y + photoHeight - 20) /\
       inside_cell i (sidePadding + photoWidth - 50 + 40) (y + photoHeight - 20 - 40)) /\
  (overlay_id o = "vignette" ->
     exists k cx cy r0 r1,
       decorations i img f o c =
         [ (fillRect (inject_Z sidePadding) (inject_Z y)
                     (inject_Z photoWidth) (inject_Z photoHeight), k) ] /\
       ctx_fillStyle k =
         RadialGradient cx cy r0 cx cy r1
           [ (0%Q, "rgba(0,0,0,0)"); (1%Q, "rgba(0,0,0,0.6)") ] /\
       (cx + cx == inject_Z sidePadding + inject_Z (sidePadding + photoWidth))%Q /\
       (cy + cy == inject_Z y + inject_Z (y + photoHeight))%Q /\
       (0 < r0 < r1)%Q /\
       ctx_filter k = active) /\
  (overlay_id o <> "hearts" -> overlay_id o <> "vignette" ->
     decorations i img f o c = []).
Proof.
  intros y active. subst y active. repeat apply conj.
  - intros Ho. unfold decorations, cellOps. rewrite (overlayOps_hearts _ _ Ho).
    eexists. split; [|split].
    + destruct (truthy (canvasFilter f));
        cbn -[yPos crop Z.add Z.sub inject_Z heart]; reflexivity.
    + reflexivity.
    + pose proof (yPos_nonneg i).
      unfold inside_cell, sidePadding, photoWidth, photoHeight. lia.
  - intros Ho. unfold decorations, cellOps. rewrite (overlayOps_vignette _ _ Ho).
    destruct (truthy (canvasFilter f));
      cbn -[yPos crop Z.add Z.sub inject_Z Qplus Qdiv Qmult];
      (do 5 eexists; split; [reflexivity|]; cbn [ctx_fillStyle ctx_filter];
       split; [reflexivity|]; rewrite !inject_Z_plus;
       change (inject_Z sidePadding) with 80%Q;
       change (inject_Z photoWidth) with 600%Q;
       change (inject_Z photoHeight) with 450%Q;
       repeat apply conj; try reflexivity; try field).
  - intros H1 H2. unfold decorations, cellOps. rewrite (overlayOps_other _ _ H1 H2).
    destruct (truthy (canvasFilter f)); reflexivity.
Qed.

(** The theorem on the first cell under the Golden Hour filter, for the
    hearts, the vignette and no overlay. *)
Lemma overlay_decorations_witness :
  (exists k,
     decorations 0 Examples.imageB Examples.warm Examples.hearts ctx0 =
       [ (fillText heart 100 110, k); (fillText heart 630 490, k) ] /\
     ctx_filter k = "none") /\
  (exists k,
     decorations 0 Examples.imageB Examples.warm Examples.vignette ctx0 =
       [ (fillRect 80 60 600 450, k) ] /\
     ctx_filter k = canvasFilter Examples.warm) /\
  decorations 0 Examples.imageB Examples.warm OVERLAYS_0 ctx0 = [].
Proof.
  split; [|split].
  - destruct (overlay_decorations 0 Examples.imageB Examples.warm Examples.hearts ctx0)
      as (H & _ & _).
    destruct (H eq_refl) as (k & Hd & Hk & _). exists k. split; [exact Hd | exact Hk].
  - destruct (overlay_decorations 0 Examples.imageB Examples.warm Examples.vignette ctx0)
      as (_ & H & _).
    destruct (H eq_refl) as (k & cx & cy & r0 & r1 & Hd & _ & _ & _ & _ & Hk).
    exists k. split; [exact Hd | exact Hk].
  - destruct (overlay_decorations 0 Examples.imageB Examples.warm OVERLAYS_0 ctx0)
      as (_ & _ & H).
    apply H; discriminate.
Defined.

(** C7 as stated fails: under the Golden Hour filter the vignette
    rectangle is painted with that filter in force, not with none. *)
Lemma vignette_is_filtered :
  ~ (forall i img f o c op k,
       (op, k) ∈ decorations i img f o c -> ctx_filter k = "none").
Proof.
  intros H.
  assert (exists op k,
            (op, k) ∈ decorations 0 Examples.imageB Examples.warm Examples.vignette ctx0 /\
            ctx_filter k = canvasFilter Examples.warm) as (op & k & Hin & Hk).
  { do 2 eexists. split; [apply list_elem_of_here | reflexivity]. }
  apply H in Hin. rewrite Hk in Hin. discriminate Hin.
Qed.

End Overlay.

(** *** What the finished loads leave on the canvas *)

Section Loads.

Lemma ops_completeAll date photos f o ref c loads order :
  renderStrip Sequence.Review photos f o ref = Some (c, loads) ->
  ops (completeAll date loads order c)
    = ops c ++ (order ≫= loadOps date photos f o).
Proof.
  intros Hr. apply renderStrip_Some in Hr as (_ & _ & _ & _ & ->).
  unfold completeAll. generalize c. clear c.
  induction order as [|i order IH]; intros c; simpl.
  - by rewrite app_nil_r.
  - rewrite IH. csimpl. rewrite app_assoc. f_equal.
    unfold complete, loadOps. rewrite list_lookup_imap.
    destruct (photos !! i) as [p|]; simpl; [|by rewrite app_nil_r].
    destruct (decode p); simpl; [done|by rewrite app_nil_r].
Qed.

Lemma painted_app a b c st :
  painted (a ++ b) c st
    = painted a c st ++ painted b (ctx_after a c st).1 (ctx_after a c st).2.
Proof.
  revert c st. induction a as [|o a IH]; intros c st; [done|].
  destruct o; cbn [app painted ctx_after paints]; rewrite ?IH; try done;
    destruct st; by rewrite ?IH.
Qed.

Lemma ctx_after_app a b c st :
  ctx_after (a ++ b) c st
    = ctx_after b (ctx_after a c st).1 (ctx_after a c st).2.
Proof.
  revert c st. induction a as [|o a IH]; intros c st; [done|].
  destruct o; cbn [app ctx_after]; rewrite ?IH; try done;
    destruct st; by rewrite ?IH.
Qed.

Lemma cellOps_context i img f o c st :
  ctx_after (cellOps i img f o) c st = (c, st).
Proof.
  unfold cellOps, overlayOps.
  destruct (truthy (canvasFilter f)),
           (String.eqb (overlay_id o) "vignette"),
           (String.eqb (overlay_id o) "hearts"); reflexivity.
Qed.

Lemma onload_context i img f o date c st :
  ctx_after (onload i img f o date) c st
    = (if (i =? 2)%nat
       then {| ctx_filter := ctx_filter c; ctx_fillStyle := Color "#888888";
               ctx_font := "16px Courier New"; ctx_textAlign := "center" |}
       else c, st).
Proof.
  unfold onload. rewrite ctx_after_app, cellOps_context.
  destruct (i =? 2)%nat; reflexivity.
Qed.

End Loads.

(** *** The order of the image loads and the footer *)

Section Footer.





Lemma perm3 (order : list nat) :
  order ≡ₚ [0; 1; 2] ->
  order ∈ [[0; 1; 2]; [1; 0; 2]; [1; 2; 0]; [0; 2; 1]; [2; 0; 1]; [2; 1; 0]].
Proof. intros H. symmetry in H. by apply permutations_Permutation in H. Qed.






End Footer.

(** *** Rendering and export need a complete session *)

Section Complete.

Import Sequence.

Lemma renderStrip_short mode photos f o ref :
  length photos < 3 -> renderStrip mode photos f o ref = None.
Proof.
  intros Hl. unfold renderStrip. destruct ref; [|done].
  destruct (Nat.eqb_spec (length photos) 3); [lia|]. by rewrite andb_false_r.
Qed.

(** The guard of [downloadStrip] itself only asks for a mounted canvas
    and a photo list that is not empty. *)
Lemma downloadStrip_guard ref photos now :
  downloadStrip ref photos now = None <-> ref = None \/ photos = [].
Proof.
  unfold downloadStrip. destruct ref as [c|]; [|tauto].
  destruct photos; simpl; split; intros H; auto; try done.
  destruct H; done.
Qed.

(** With fewer than three entries in the photo list the effect does
    nothing: the canvas is not touched and no image load is started, in
    any mode and for any filter and overlay. And in no state the page can
    reach does a click export anything while the list holds fewer than
    three entries: the download button exists in review only, where there
    are three. Both guards count entries, whatever they are. *)
Lemma no_strip_from_incomplete_session :
  (forall mode photos f o ref,
     length photos < 3 -> renderStrip mode photos f o ref = None) /\
  (forall s, reachable s -> length (photos s) < 3 ->
     forall ref now, stripEffect s ref = None /\ clickDownload s ref now = None).
Proof.
  split; [apply renderStrip_short|].
  intros s Hr Hl ref now. split; [by apply renderStrip_short|].
  unfold clickDownload. destruct (offered ClickDownload s) eqn:Hoff; [|done].
  apply SequenceFacts.offered_mode_idle in Hoff.
  pose proof (SequenceFacts.reachable_Inv s Hr) as HI.
  unfold Inv in HI. rewrite Hoff in HI. lia.
Qed.

(** The lemma on a list of two photos and on the idle page. *)
Lemma no_strip_from_incomplete_session_witness :
  renderStrip Review [Examples.photoA; Examples.photoB] FILTERS_0 OVERLAYS_0
    (Some blank) = None /\
  stripEffect Examples.ready (Some blank) = None /\
  clickDownload Examples.ready (Some blank) 0 = None.
Proof.
  destruct no_strip_from_incomplete_session as [H1 H2].
  split; [apply H1; simpl; lia|].
  apply H2; [apply SequenceFacts.reachable_ready | simpl; lia].
Defined.

(** C9, the code at a failing input: at the end of the session whose
    first shot found no video element, the photo list holds [undefined]
    and two frames. The guard [photos.length === 3] of the effect counts
    the placeholder as a frame: the canvas is sized, three image loads
    are started, the two frames that can be decoded are drawn into the
    second and third cell and the footer below them, and the click on the
    download button exports this strip with its first cell empty. This
    is the defect of C2 seen from the compositor. *)
Lemma partial_strip_is_exported :
  exists s c loads d,
    ui_run Examples.lateCamera init = Some s /\
    mode s = Review /\
    is_frame <$> photos s = [false; true; true] /\
    stripEffect s (Some blank) = Some (c, loads) /\
    length loads = 3 /\
    cells_drawn (ops (completeAll "1/1/2026" loads [0; 1; 2] c))
      = [inject_Z (yPos 1); inject_Z (yPos 2)] /\
    titles (ops (completeAll "1/1/2026" loads [0; 1; 2] c)) = 1 /\
    clickDownload s (Some (completeAll "1/1/2026" loads [0; 1; 2] c)) 0 = Some d /\
    href_canvas d = completeAll "1/1/2026" loads [0; 1; 2] c /\
    href_mime d = Capture.image_png.
Proof.
  do 4 eexists. repeat apply conj; vm_compute; reflexivity.
Qed.

End Complete.

(** *** Selecting a filter or an overlay *)

Section Selection.

Import Sequence.










End Selection.

End StripFacts.

(** ** More about the capture sequence *)

Module SequenceMore.

Import Catalog Sequence SequenceFacts.

(** *** The prompt *)

Lemma pickPrompt_index env :
  (0 <= random env)%Q -> (random env < 1)%Q ->
  Z.to_nat (Qfloor (random env * inject_Z (Z.of_nat (length PROMPTS))))
    < length PROMPTS.
Proof.
  intros H0 H1.
  set (x := (random env * inject_Z (Z.of_nat (length PROMPTS)))%Q).
  assert (0 <= x)%Q as Hx0.
  { unfold x. change (inject_Z (Z.of_nat (length PROMPTS))) with 8%Q. lra. }
  assert (x < 8)%Q as Hx8.
  { unfold x. change (inject_Z (Z.of_nat (length PROMPTS))) with 8%Q. lra. }
  assert (0 <= Qfloor x < 8)%Z as [Hf0 Hf8].
  { split.
    - change 0%Z with (Qfloor 0). by apply Qfloor_resp_le.
    - pose proof (Qfloor_le x) as Hle.
      assert (inject_Z (Qfloor x) < inject_Z 8)%Q as Hlt
        by (apply (Qle_lt_trans _ x); [exact Hle | exact Hx8]).
      by rewrite <- Zlt_Qlt in Hlt. }
  change (length PROMPTS) with 8. lia.
Qed.

Lemma pickPrompt_elem env : sane (Fire 0 env) -> pickPrompt env ∈ PROMPTS.
Proof.
  intros [H0 H1]. unfold pickPrompt.
  apply list_elem_of_In, nth_In, pickPrompt_index; done.
Qed.

(** X1: for a [Math.random()] in [0, 1) the index computed on line 142 is
    below [PROMPTS.length], so the prompt is one of the eight texts and
    never [undefined]. *)
Theorem pickPrompt_in_PROMPTS env :
  (0 <= random env)%Q -> (random env < 1)%Q -> pickPrompt env ∈ PROMPTS.
Proof.
  intros H0 H1. unfold pickPrompt.
  apply list_elem_of_In, nth_In, pickPrompt_index; done.
Qed.

(** The theorem on a [Math.random()] of 1/2. *)
Lemma pickPrompt_in_PROMPTS_witness : pickPrompt Examples.env ∈ PROMPTS.
Proof.
  apply (pickPrompt_in_PROMPTS Examples.env).
  - unfold Qle. simpl. lia.
  - unfold Qlt. simpl. lia.
Defined.

Lemma pickPrompt_nonempty env :
  sane (Fire 0 env) -> pickPrompt env <> "".
Proof.
  intros Hs He. pose proof (pickPrompt_elem env Hs) as Hin.
  rewrite He in Hin. revert Hin. compute_done.
Qed.

(** *** The selection *)

Lemma fire_selection id env s s' :
  fire id env s = Some s' ->
  currentFilter s' = currentFilter s /\ currentOverlay s' = currentOverlay s.
Proof.
  unfold fire. destruct (timers s !! id) as [[count timer|count|]|]; intros Hs;
    simplify_eq; [| |done].
  - unfold intervalCallback. destruct (timer - 1 =? 0)%Z; [|done].
    unfold capturePhoto. repeat case_match; simplify_eq; done.
  - unfold runSequence. by destruct (3 <=? count + 1).
Qed.

Lemma step_selection e s s' :
  is_selection e = false -> ui_step e s = Some s' ->
  currentFilter s' = currentFilter s /\ currentOverlay s' = currentOverlay s.
Proof.
  unfold ui_step. destruct (offered e s); [|done].
  destruct e; simpl; intros He Hs; simplify_eq; try done.
  by apply fire_selection in Hs.
Qed.

(** X2: the current filter and the current overlay are entries of the
    catalogs in every state the page can reach, and a run in which no
    filter or overlay button is clicked, whatever else happens (sessions,
    resets, timers, downloads), leaves both as they were. *)
Theorem selection_is_kept s :
  reachable s ->
  currentFilter s ∈ FILTERS /\ currentOverlay s ∈ OVERLAYS /\
  forall es s', Forall (fun e => is_selection e = false) es ->
    ui_run es s = Some s' ->
    currentFilter s' = currentFilter s /\ currentOverlay s' = currentOverlay s.
Proof.
  intros Hr. split; [|split].
  - induction Hr as [|e s s' Hr IH Hs]; [compute_done|].
    destruct (is_selection e) eqn:He.
    + unfold ui_step in Hs. destruct (offered e s) eqn:Hoff; [|done].
      destruct e; try discriminate He; simpl in *; simplify_eq; simpl; [|done].
      apply andb_prop in Hoff as [_ Hf]. by apply bool_decide_eq_true in Hf.
    + destruct (step_selection e s s' He Hs) as [-> _]. done.
  - induction Hr as [|e s s' Hr IH Hs]; [compute_done|].
    destruct (is_selection e) eqn:He.
    + unfold ui_step in Hs. destruct (offered e s) eqn:Hoff; [|done].
      destruct e; try discriminate He; simpl in *; simplify_eq; simpl; [done|].
      apply andb_prop in Hoff as [_ Hf]. by apply bool_decide_eq_true in Hf.
    + destruct (step_selection e s s' He Hs) as [_ ->]. done.
  - clear Hr. intros es. revert s.
    induction es as [|e es IH]; simpl; intros s s' Hes Hrun.
    + by injection Hrun as <-.
    + destruct (ui_step e s) as [s1|] eqn:He; [|done]. simpl in Hrun.
      apply Forall_cons in Hes as [He1 Hes].
      destruct (IH _ _ Hes Hrun) as [-> ->]. by apply step_selection in He.
Qed.

(** The theorem on the page at the end of a session: still Natural and
    no overlay. *)
Lemma selection_is_kept_witness :
  currentFilter Examples.afterSession = FILTERS_0 /\
  currentOverlay Examples.afterSession = OVERLAYS_0.
Proof.
  destruct (selection_is_kept Examples.ready reachable_ready) as (_ & _ & H).
  apply (H (session 0 (fun _ => Examples.env)));
    [repeat constructor | vm_compute; reflexivity].
Defined.

(** *** The photo list and the number on display *)

(** X3: the photo list never holds more than three entries; it is empty
    whenever the page is idle, holds exactly the shots taken so far while
    a sequence runs (fewer than three while the countdown interval is
    pending), and three in review. *)
Theorem photos_at_most_three s :
  reachable s ->
  length (photos s) <= 3 /\
  (mode s = Idle -> photos s = []) /\
  (forall id count timer, timers s !! id = Some (IntervalTick count timer) ->
     length (photos s) = count /\ count < 3) /\
  (forall id count, timers s !! id = Some (NextShot count) ->
     length (photos s) = S count).
Proof.
  intros Hr. pose proof (reachable_Inv s Hr) as HI. repeat apply conj.
  - unfold Inv in HI. destruct (mode s).
    + destruct HI as [_ ->]. simpl. lia.
    + destruct HI as (i & [c k|c|] & _ & Hp); simpl in Hp; lia.
    + lia.
  - intros Hm. unfold Inv in HI. rewrite Hm in HI. tauto.
  - intros id count timer Hid.
    destruct (Inv_driver _ _ _ HI Hid eq_refl) as (_ & Hp & _). simpl in Hp. tauto.
  - intros id count Hid.
    destruct (Inv_driver _ _ _ HI Hid eq_refl) as (_ & Hp & _). simpl in Hp. tauto.
Qed.

Lemma photos_at_most_three_witness :
  length (photos Examples.afterSession) <= 3.
Proof.
  apply (photos_at_most_three Examples.afterSession).
  apply (ui_run_reachable (session 0 (fun _ => Examples.env)) Examples.ready);
    [apply reachable_ready | vm_compute; reflexivity].
Defined.

(** In countdown mode the display follows the one driving timer. *)
Lemma shown_driver s h d :
  Inv s -> mode s = Countdown -> timers s !! h = Some d ->
  drives_sequence d = true ->
  match d with
  | IntervalTick _ timer => countdown s = Some timer
  | NextShot _ => countdown s = Some 0%Z
  | FlashOff => True
  end ->
  shown s.
Proof.
  intros HI Hm Hh Hd Hc. unfold shown. rewrite Hm. intros id t Hid.
  destruct (drives_sequence t) eqn:Ht; [|by destruct t].
  destruct (Inv_driver _ _ _ HI Hid Ht) as (_ & _ & Hs1).
  destruct (sole_driver_is _ _ _ _ _ Hs1 Hh Hd) as [-> ->]. done.
Qed.

Lemma shown_step e s s' : Inv s -> shown s -> ui_step e s = Some s' -> shown s'.
Proof.
  intros HI Hsh Hstep. pose proof (Inv_step _ _ _ HI Hstep) as HI'.
  unfold ui_step in Hstep. destruct (offered e s) eqn:Hoff; [|done].
  apply offered_mode_idle in Hoff.
  destruct e; simpl in *; simplify_eq; try exact Hsh.
  - (* start *)
    apply (shown_driver _ (nextTimer s) (IntervalTick 0 3));
      [done | done | apply lookup_insert_eq | done | done].
  - (* reset *) done.
  - (* a timer *)
    unfold fire in Hstep.
    destruct (timers s !! id) as [[count timer|count|]|] eqn:Hid; simplify_eq.
    + destruct (Inv_driver _ _ _ HI Hid eq_refl) as (Hm & _ & _).
      revert HI'. unfold intervalCallback.
      destruct (timer - 1 =? 0)%Z eqn:Hz.
      * apply Z.eqb_eq in Hz.
        set (s0 := clearInterval id _).
        pose proof (capturePhoto_frame env s0) as (Hm1 & _).
        assert (countdown (capturePhoto env s0).2 = Some 0%Z) as Hc1.
        { unfold capturePhoto. repeat case_match; simpl; by rewrite Hz. }
        destruct (capturePhoto env s0) as [photo s1]. simpl in Hm1, Hc1.
        intros HI'.
        apply (shown_driver _ (nextTimer s1) (NextShot count));
          [done | simpl; by rewrite Hm1 | apply lookup_insert_eq | done | done].
      * intros HI'.
        apply (shown_driver _ id (IntervalTick count (timer - 1)));
          [done | done | apply lookup_insert_eq | done | done].
    + destruct (Inv_driver _ _ _ HI Hid eq_refl) as (Hm & _ & _).
      assert (countdown s = Some 0%Z) as Hc0.
      { unfold shown in Hsh. rewrite Hm in Hsh. apply (Hsh _ _ Hid). }
      revert HI'. unfold runSequence. destruct (3 <=? count + 1).
      * intros _. unfold shown; simpl. exact Hc0.
      * intros HI'.
        apply (shown_driver _ (nextTimer s) (IntervalTick (count + 1) 3));
          [done | done | apply lookup_insert_eq | done | done].
    + unfold shown in *; simpl. destruct (mode s); try done.
      intros id' t Hid'. apply lookup_delete_Some in Hid' as [_ Hid'].
      exact (Hsh _ _ Hid').
Qed.

Lemma reachable_shown s : reachable s -> shown s.
Proof.
  induction 1 as [|e s s' Hr IH Hs]; [done|].
  eapply shown_step; [by apply reachable_Inv | done | done].
Qed.

(** X4: the number on display is [null] whenever the page is idle, the
    counter of the pending interval (3, 2 or 1) while it ticks, and 0 from
    the moment of a capture until the next countdown starts, and in
    review. *)
Theorem countdown_display s :
  reachable s ->
  (mode s = Idle -> countdown s = None) /\
  (mode s = Review -> countdown s = Some 0%Z) /\
  (forall id count timer, timers s !! id = Some (IntervalTick count timer) ->
     countdown s = Some timer /\ (1 <= timer <= 3)%Z) /\
  (forall id count, timers s !! id = Some (NextShot count) ->
     countdown s = Some 0%Z).
Proof.
  intros Hr. pose proof (reachable_shown s Hr) as Hsh.
  pose proof (reachable_Inv s Hr) as HI. unfold shown in Hsh.
  repeat apply conj.
  - intros Hm. by rewrite Hm in Hsh.
  - intros Hm. by rewrite Hm in Hsh.
  - intros id count timer Hid.
    destruct (Inv_driver _ _ _ HI Hid eq_refl) as (Hm & Hp & _).
    rewrite Hm in Hsh. split; [apply (Hsh _ _ Hid)|]. simpl in Hp. tauto.
  - intros id count Hid.
    destruct (Inv_driver _ _ _ HI Hid eq_refl) as (Hm & _ & _).
    rewrite Hm in Hsh. apply (Hsh _ _ Hid).
Qed.

Lemma countdown_display_witness :
  countdown Examples.afterSession = Some 0%Z.
Proof.
  destruct (countdown_display Examples.afterSession) as (_ & H & _).
  { apply (ui_run_reachable (session 0 (fun _ => Examples.env)) Examples.ready);
      [apply reachable_ready | vm_compute; reflexivity]. }
  apply H. vm_compute. reflexivity.
Defined.

(** *** When the prompt is on screen *)

Lemma prompted_step e s s' :
  sane e -> (mode s = Countdown -> currentPrompt s ∈ PROMPTS) ->
  ui_step e s = Some s' ->
  mode s' = Countdown -> currentPrompt s' ∈ PROMPTS.
Proof.
  intros Hsane Hp. unfold ui_step. destruct (offered e s) eqn:Hoff; [|done].
  destruct e; simpl in *; intros Hs; simplify_eq; try done.
  - intros _. simpl. by apply pickPrompt_elem.
  - unfold fire in Hs.
    destruct (timers s !! id) as [[count timer|count|]|]; simplify_eq; [| |done].
    + unfold intervalCallback. destruct (timer - 1 =? 0)%Z; [|done].
      unfold capturePhoto. repeat case_match; simplify_eq; done.
    + unfold runSequence. destruct (3 <=? count + 1); [done|].
      intros _. simpl. by apply pickPrompt_elem.
Qed.

Lemma prompted_run es s s' :
  Forall sane es -> (mode s = Countdown -> currentPrompt s ∈ PROMPTS) ->
  ui_run es s = Some s' ->
  mode s' = Countdown -> currentPrompt s' ∈ PROMPTS.
Proof.
  revert s. induction es as [|e es IH]; simpl; intros s Hes Hp Hrun.
  - by injection Hrun as <-.
  - destruct (ui_step e s) as [s1|] eqn:He; [|done]. simpl in Hrun.
    apply Forall_cons in Hes as [He1 Hes].
    eapply (IH s1); [done | | done]. by eapply prompted_step.
Qed.

(** X5: on every run of the page from its initial state (with
    [Math.random()] in [0, 1)), the prompt is on screen exactly while a
    countdown shows 3 or 2: it is hidden for the last second before the
    shot, during the delay after it, and outside countdown mode. *)
Theorem prompt_hidden_in_last_second es s :
  Forall sane es -> ui_run es init = Some s ->
  promptShown s = true <->
  error s = None /\ mode s = Countdown /\
  (countdown s = Some 3%Z \/ countdown s = Some 2%Z).
Proof.
  intros Hes Hrun.
  pose proof (ui_run_reachable es init s reachable_init Hrun) as Hr.
  pose proof (reachable_Inv s Hr) as HI.
  pose proof (reachable_shown s Hr) as Hsh.
  assert (mode s = Countdown -> currentPrompt s ∈ PROMPTS) as Hp
    by (by apply (prompted_run es init s Hes)).
  unfold promptShown.
  rewrite !andb_true_iff, !bool_decide_eq_true, negb_true_iff, String.eqb_neq.
  split.
  - intros [[[He Hm] _] Hk]. split; [done|]. split; [done|].
    unfold Inv in HI. unfold shown in Hsh. rewrite Hm in HI, Hsh.
    destruct HI as (i & t & (Hi & _ & _) & Hph). specialize (Hsh _ _ Hi).
    destruct t as [c k|c|]; simpl in Hph; [| |done].
    + rewrite Hsh in Hk |- *. apply Z.ltb_lt in Hk.
      assert (k = 3 \/ k = 2)%Z as [-> | ->] by lia; auto.
    + rewrite Hsh in Hk. discriminate Hk.
  - intros (He & Hm & Hk). repeat split; try done.
    + intros E. specialize (Hp Hm). rewrite E in Hp. revert Hp. compute_done.
    + by destruct Hk as [-> | ->].
Qed.

Lemma prompt_hidden_in_last_second_witness :
  exists s,
    ui_run [ClickStart Examples.env; Fire 0 Examples.env; Fire 0 Examples.env]
      init = Some s /\
    countdown s = Some 1%Z /\ promptShown s = false.
Proof.
  destruct (ui_run [ClickStart Examples.env; Fire 0 Examples.env;
                    Fire 0 Examples.env] init) as [s|] eqn:Hrun;
    [|vm_compute in Hrun; discriminate Hrun].
  exists s. split; [reflexivity|].
  assert (countdown s = Some 1%Z) as Hc
    by (vm_compute in Hrun; injection Hrun as <-; reflexivity).
  split; [exact Hc|].
  apply not_true_is_false. intros H.
  assert (Forall sane [ClickStart Examples.env; Fire 0 Examples.env;
                       Fire 0 Examples.env]) as Hsane
    by (repeat constructor; vm_compute; congruence).
  destruct (proj1 (prompt_hidden_in_last_second _ s Hsane Hrun) H)
    as (_ & _ & [Hk | Hk]); rewrite Hc in Hk; discriminate Hk.
Defined.

(** *** The flash *)

Lemma armed_insert m id t :
  armed m -> m !! id <> Some FlashOff -> armed (<[id := t]> m).
Proof.
  intros [id0 H0] Hne. exists id0. rewrite lookup_insert_ne; [done|].
  intros ->. done.
Qed.

Lemma armed_delete m id :
  armed m -> m !! id <> Some FlashOff -> armed (delete id m).
Proof.
  intros [id0 H0] Hne. exists id0. rewrite lookup_delete_ne; [done|].
  intros ->. done.
Qed.

Lemma fresh_next_free s : fresh s -> timers s !! nextTimer s = None.
Proof.
  intros Hf. destruct (timers s !! nextTimer s) eqn:E; [|done].
  assert (nextTimer s < nextTimer s) by (apply Hf; by eexists). lia.
Qed.

Lemma armed_register t s :
  fresh s -> armed (timers s) -> armed (timers (register t s)).
Proof.
  intros Hf Ha. simpl. apply armed_insert; [done|].
  by rewrite (fresh_next_free s Hf).
Qed.

Lemma armed_step e s s' :
  fresh s -> (flashActive s = true -> armed (timers s)) ->
  ui_step e s = Some s' ->
  flashActive s' = true -> armed (timers s').
Proof.
  intros Hf Ha. unfold ui_step. destruct (offered e s); [|done].
  destruct e; simpl; intros Hs; simplify_eq; try exact Ha.
  - (* start *)
    intros Hfl. simpl in Hfl.
    apply (armed_register _ (setCountdown _ (setCurrentPrompt _
             (setPhotos _ (setMode _ s))))); [exact Hf | by apply Ha].
  - (* a timer *)
    unfold fire in Hs.
    destruct (timers s !! id) as [[count timer|count|]|] eqn:Hid; simplify_eq.
    + unfold intervalCallback.
      set (s1 := setCountdown _ (setTimers _ s)).
      assert (fresh s1) as Hf1 by (apply (fresh_update id); [by eexists | done]).
      assert (flashActive s1 = true -> armed (timers s1)) as Ha1.
      { intros Hfl. apply armed_insert; [by apply Ha|]. by rewrite Hid. }
      destruct (timer - 1 =? 0)%Z; [|exact Ha1].
      set (s2 := clearInterval id s1).
      assert (fresh s2) as Hf2 by (by apply (fresh_delete id)).
      assert (flashActive s2 = true -> armed (timers s2)) as Ha2.
      { intros Hfl. apply armed_delete; [by apply Ha1|].
        simpl. by rewrite lookup_insert_eq. }
      pose proof (fresh_capturePhoto env s2 Hf2) as Hf3.
      assert (flashActive (capturePhoto env s2).2 = true ->
              armed (timers (capturePhoto env s2).2)) as Ha3.
      { unfold capturePhoto. repeat case_match; simpl; try exact Ha2.
        intros _. eexists. apply lookup_insert_eq. }
      destruct (capturePhoto env s2) as [photo s3]. simpl in Hf3, Ha3.
      intros Hfl. apply (armed_register _ (setPhotos _ s3)); [exact Hf3|].
      by apply Ha3.
    + set (s1 := setTimers (delete id (timers s)) s).
      assert (fresh s1) as Hf1 by (by apply (fresh_delete id)).
      assert (flashActive s1 = true -> armed (timers s1)) as Ha1.
      { intros Hfl. apply armed_delete; [by apply Ha|]. by rewrite Hid. }
      unfold runSequence. destruct (3 <=? count + 1); [exact Ha1|].
      intros Hfl.
      apply (armed_register _ (setCountdown _ (setCurrentPrompt _ s1)));
        [exact Hf1 | by apply Ha1].
    + simpl. done.
Qed.

(** X6: whenever the flash is on, a timeout that switches it off is
    pending: no click and no other timer removes or replaces that timeout,
    so the white overlay cannot stay on the screen. *)
Theorem flash_is_switched_off s :
  reachable s -> flashActive s = true ->
  exists id, timers s !! id = Some FlashOff /\
    forall env, exists s',
      ui_step (Fire id env) s = Some s' /\ flashActive s' = false.
Proof.
  intros Hr Hfl.
  assert (flashActive s = true -> armed (timers s)) as Ha.
  { clear Hfl. induction Hr as [|e s s' Hr IH Hs]; [done|].
    eapply armed_step; [by apply handles_fresh | done | done]. }
  destruct (Ha Hfl) as [id Hid]. exists id. split; [done|]. intros env.
  exists (setFlashActive false (setTimers (delete id (timers s)) s)).
  split; [|reflexivity].
  unfold ui_step; cbn [offered handle]; unfold fire. by rewrite Hid.
Qed.

(** The theorem on the page right after the first capture of a session. *)
Lemma flash_is_switched_off_witness :
  exists s id,
    ui_run [ClickStart Examples.env; Fire 0 Examples.env; Fire 0 Examples.env;
            Fire 0 Examples.env] Examples.ready = Some s /\
    flashActive s = true /\ timers s !! id = Some FlashOff.
Proof.
  destruct (ui_run [ClickStart Examples.env; Fire 0 Examples.env;
                    Fire 0 Examples.env; Fire 0 Examples.env] Examples.ready)
    as [s|] eqn:Hrun; [|vm_compute in Hrun; discriminate Hrun].
  assert (flashActive s = true) as Hfl
    by (vm_compute in Hrun; injection Hrun as <-; reflexivity).
  destruct (flash_is_switched_off s) as (id & Hid & _);
    [by eapply ui_run_reachable; [apply reachable_ready|] | exact Hfl |].
  exists s, id. by repeat apply conj.
Defined.

(** *** The camera error *)

Lemma error_step e s s' :
  error s <> None -> ui_step e s = Some s' ->
  (exists id env, e = Fire id env) /\ error s' = error s /\
  stream s' = stream s /\
  (photos s' = photos s \/ photos s' = photos s ++ [None]).
Proof.
  intros He. unfold ui_step. destruct (offered e s) eqn:Hoff; [|done].
  destruct e; simpl in Hoff;
    rewrite ?andb_true_iff, ?bool_decide_eq_true in Hoff;
    try (exfalso; apply He; tauto).
  simpl. intros Hs. split; [by eauto|].
  unfold fire in Hs.
  destruct (timers s !! id) as [[count timer|count|]|]; simplify_eq.
  - unfold intervalCallback.
    destruct (timer - 1 =? 0)%Z; [|by repeat split; auto].
    unfold capturePhoto, videoRef, canvasRef. simpl.
    destruct (error s) eqn:E; [|done]. simpl. repeat split; auto.
  - unfold runSequence. destruct (3 <=? count + 1); simpl; repeat split; auto.
  - simpl. repeat split; auto.
Qed.

Lemma fire_camera id env s s' :
  fire id env s = Some s' -> stream s' = stream s /\ error s' = error s.
Proof.
  unfold fire. destruct (timers s !! id) as [[count timer|count|]|]; intros Hs;
    simplify_eq; [| |done].
  - unfold intervalCallback. destruct (timer - 1 =? 0)%Z; [|done].
    unfold capturePhoto. repeat case_match; simplify_eq; done.
  - unfold runSequence. by destruct (3 <=? count + 1).
Qed.

Lemma stream_excludes_error s : reachable s -> stream s = true -> error s = None.
Proof.
  induction 1 as [|e s s' Hr IH Hs]; [done|].
  unfold ui_step in Hs. destruct (offered e s) eqn:Hoff; [|done].
  destruct e; simpl in Hs, Hoff; simplify_eq; simpl; try done.
  - apply andb_prop in Hoff as [Hst _]. apply negb_true_iff in Hst.
    rewrite Hst. done.
  - by destruct (fire_camera id env s s' Hs) as (-> & ->).
Qed.

(** X7: the camera stream and the camera error are never both set. Once
    the error is set it stays set: the page lets nothing happen but
    timers that were already pending, the stream never arrives, and every
    capture such a timer still attempts stores [undefined]. *)
Theorem camera_error_is_final s :
  reachable s ->
  (stream s = true -> error s = None) /\
  (error s <> None ->
   offered CameraGranted s = false /\
   forall es s', ui_run es s = Some s' ->
     error s' = error s /\ stream s' = false /\
     Forall (fun e => exists id env, e = Fire id env) es /\
     exists k, photos s' = photos s ++ replicate k None).
Proof.
  intros Hr. pose proof (stream_excludes_error s Hr) as Hex.
  split; [exact Hex|]. intros He.
  assert (stream s = false) as Hst.
  { destruct (stream s); [|done]. destruct He. by apply Hex. }
  split.
  { simpl. rewrite Hst. simpl. apply bool_decide_eq_false. done. }
  clear Hr Hex. intros es. revert s He Hst.
  induction es as [|e es IH]; simpl; intros s He Hst s' Hrun.
  - injection Hrun as <-. repeat split; try done. exists 0. simpl.
    by rewrite app_nil_r.
  - destruct (ui_step e s) as [s1|] eqn:Hs; [|done]. simpl in Hrun.
    destruct (error_step e s s1 He Hs) as (Hfire & He1 & Hst1 & Hp1).
    destruct (IH s1) with (s' := s') as (He' & Hst' & Hes & k & Hk); try done.
    { by rewrite He1. }
    { by rewrite Hst1. }
    repeat split; try done.
    + by rewrite He', He1.
    + by constructor.
    + destruct Hp1 as [Hp1 | Hp1]; rewrite Hp1 in Hk.
      * by exists k.
      * exists (S k). by rewrite Hk, <- app_assoc.
Qed.

(** The theorem on the page where the camera was refused while the first
    countdown was running: the countdown completes and stores
    [undefined]. *)
Lemma camera_error_is_final_witness :
  exists s' k,
    ui_run [Fire 0 Examples.env; Fire 0 Examples.env; Fire 0 Examples.env]
      Examples.denied = Some s' /\
    error s' = Some camera_error /\ photos s' = replicate k None.
Proof.
  destruct (ui_run [Fire 0 Examples.env; Fire 0 Examples.env; Fire 0 Examples.env]
              Examples.denied) as [s'|] eqn:Hrun;
    [|vm_compute in Hrun; discriminate Hrun].
  destruct (camera_error_is_final Examples.denied) as (_ & H).
  { apply (ui_run_reachable [ClickStart Examples.env; CameraDenied] init);
      [apply reachable_init | vm_compute; reflexivity]. }
  destruct H as (_ & H); [discriminate|].
  destruct (H _ _ Hrun) as (He & _ & _ & k & Hk).
  exists s', k. split; [reflexivity|]. split; [exact He | exact Hk].
Defined.

(** *** A second session *)

(** X8: from a page in review with a live camera, the reset button
    followed by a new session ends in review again, and the photo list
    then holds exactly the three new captures: nothing of the earlier
    session is left. *)
Theorem new_session_starts_over envs s :
  mode s = Review -> error s = None -> stream s = true ->
  exists s',
    ui_run (ClickReset :: session (nextTimer s) envs) s = Some s' /\
    mode s' = Review /\
    photos s' =
      [ Some (Capture.captureDataUrl (video (envs 3)) Capture.blank);
        Some (Capture.captureDataUrl (video (envs 7)) Capture.blank);
        Some (Capture.captureDataUrl (video (envs 11)) Capture.blank) ].
Proof.
  intros Hm He Hs.
  destruct (session_trace envs (resetBooth s)) as (s' & Hrun & Hm' & Hp & _);
    try done.
  exists s'. split; [|done].
  change (ui_run (ClickReset :: session (nextTimer s) envs) s)
    with (ui_step ClickReset s ≫= ui_run (session (nextTimer s) envs)).
  unfold ui_step; simpl. rewrite He, Hm. simpl. exact Hrun.
Qed.

(** The theorem on the page at the end of a first session. *)
Lemma new_session_starts_over_witness :
  exists s',
    ui_run (ClickReset :: session (nextTimer Examples.afterSession)
                            (fun _ => Examples.env))
      Examples.afterSession = Some s' /\
    mode s' = Review /\ length (photos s') = 3.
Proof.
  destruct (new_session_starts_over (fun _ => Examples.env) Examples.afterSession)
    as (s' & Hrun & Hm & Hp); [vm_compute; reflexivity ..|].
  exists s'. split; [exact Hrun|]. split; [exact Hm|]. by rewrite Hp.
Defined.

End SequenceMore.

(** ** More about the capture *)

Module CaptureMore.

Import Capture.
Local Open Scope Z_scope.

Lemma filter_all {A} (P : A -> Prop) `{!forall x, Decision (P x)} (l : list A) :
  Forall P l -> filter P l = l.
Proof.
  induction 1 as [|x l Hx Hl IH]; [done|].
  rewrite filter_cons_True by done. by rewrite IH.
Qed.

Lemma length_bind_const {A B} (f : A -> list B) (l : list A) (k : nat) :
  (forall x, length (f x) = k) -> length (l ≫= f) = (length l * k)%nat.
Proof.
  intros Hf. induction l as [|x l IH]; [done|].
  csimpl. rewrite length_app, Hf, IH. lia.
Qed.

Lemma fmap_bind_out {A B C} (f : B -> C) (g : A -> list B) (l : list A) :
  f <$> (l ≫= g) = l ≫= (fun x => f <$> g x).
Proof.
  induction l as [|x l IH]; [done|]. csimpl. by rewrite fmap_app, IH.
Qed.

Lemma elem_of_mirrored video X Y p :
  (X, Y, p) ∈ mirrored video ->
  0 <= X < videoWidth video /\ 0 <= Y < videoHeight video.
Proof.
  unfold mirrored. rewrite list_elem_of_bind. intros (uy & Hin & Huy).
  rewrite list_elem_of_bind in Hin. destruct Hin as (ux & Hin & Hux).
  apply list_elem_of_singleton in Hin. injection Hin as -> -> ->.
  apply elem_of_seqZ in Hux, Huy. lia.
Qed.

(** X9: for a video with a frame, the canvas after a capture holds the
    frame flipped left to right and nothing else, whatever was on the
    canvas before: every pixel of the canvas is painted exactly once, none
    outside it, [videoWidth * videoHeight] in all. *)
Theorem capture_paints_each_pixel_once video canvas :
  0 < videoWidth video -> 0 < videoHeight video ->
  bitmap (captureCanvas video canvas) = mirrored video /\
  NoDup (fst <$> bitmap (captureCanvas video canvas)) /\
  length (bitmap (captureCanvas video canvas))
    = Z.to_nat (videoWidth video * videoHeight video).
Proof.
  intros Hw Hh.
  assert (bitmap (captureCanvas video canvas) = mirrored video) as ->.
  { pose proof (CaptureFacts.mirror_col video canvas) as Hcol.
    pose proof (CaptureFacts.mirror_row video canvas) as Hrow.
    unfold captureCanvas, drawImage in *.
    cbn [bitmap width height ctm set_width set_height translate scale app] in *.
    assert ((uy ← seqZ 0 (videoHeight video); ux ← seqZ 0 (videoWidth video);
             [(dev_col
                 (ctm (scale (-1) 1 (translate (videoWidth video) 0
                    (set_height (videoHeight video)
                       (set_width (videoWidth video) canvas))))) (0 + ux),
               dev_row
                 (ctm (scale (-1) 1 (translate (videoWidth video) 0
                    (set_height (videoHeight video)
                       (set_width (videoWidth video) canvas))))) (0 + uy),
               frame video (ux * videoWidth video / videoWidth video)
                     (uy * videoHeight video / videoHeight video))])
            = mirrored video) as E.
    { unfold mirrored. apply list_bind_ext; [|done]. intros uy.
      apply list_bind_ext; [|done]. intros ux.
      cbn [ctm scale translate set_height set_width] in *.
      rewrite Hcol, Hrow, !Z.div_mul by lia. do 3 f_equal; lia. }
    cbn [ctm scale translate set_height set_width] in *. rewrite E.
    apply filter_all. apply Forall_forall. intros [[X Y] p] Hin.
    apply elem_of_mirrored in Hin. apply Is_true_true. unfold on_canvas.
    cbn [fst snd width height scale translate set_width set_height].
    rewrite !andb_true_iff, !Z.leb_le, !Z.ltb_lt. lia. }
  split; [done|]. split.
  - unfold mirrored. rewrite fmap_bind_out.
    apply NoDup_bind; [| |apply NoDup_seqZ].
    + intros y1 y2 [X Y] _ _ H1 H2.
      rewrite fmap_bind_out in H1, H2.
      apply list_elem_of_bind in H1 as (x1 & H1 & _).
      apply list_elem_of_bind in H2 as (x2 & H2 & _).
      simpl in H1, H2.
      apply list_elem_of_singleton in H1, H2. congruence.
    + intros y _. rewrite fmap_bind_out.
      apply NoDup_bind; [| |apply NoDup_seqZ].
      * intros x1 x2 [X Y] _ _ H1 H2. simpl in H1, H2.
        apply list_elem_of_singleton in H1, H2.
        assert (videoWidth video - 1 - x1 = videoWidth video - 1 - x2)
          by congruence.
        lia.
      * intros x _. apply NoDup_singleton.
  - unfold mirrored.
    rewrite (length_bind_const _ _ (Z.to_nat (videoWidth video))).
    + rewrite length_seqZ. lia.
    + intros y. rewrite (length_bind_const _ _ 1%nat) by done.
      rewrite length_seqZ. lia.
Qed.

(** The theorem on the 2 x 1 test frame. *)
Lemma capture_paints_each_pixel_once_witness :
  bitmap (captureCanvas Examples.video2x1 blank) = [(1, 0, 0); (0, 0, 10)].
Proof.
  destruct (capture_paints_each_pixel_once Examples.video2x1 blank)
    as (H & _); [reflexivity | reflexivity |].
  exact H.
Defined.

End CaptureMore.


(** ** More about the photo strip *)

Module StripMore.

Import Catalog Strip StripFacts.

(** *** From a capture to a loaded image *)

(** X10: a stored photo loads as an image of the strip exactly when it
    was captured with the video element and the canvas mounted and the
    video had a frame (neither dimension 0); the image then has the
    video's intrinsic size. [undefined] and the empty data URL of a
    video without a frame never load. *)
Theorem captured_photo_loads env s :
  (is_Some (decode (Sequence.capturePhoto env s).1) <->
   exists video, Sequence.videoRef env s = Some video /\
     is_Some (Sequence.canvasRef s) /\
     Capture.videoWidth video <> 0%Z /\ Capture.videoHeight video <> 0%Z) /\
  (forall img, decode (Sequence.capturePhoto env s).1 = Some img ->
     exists video, Sequence.videoRef env s = Some video /\
       img_width img = Capture.videoWidth video /\
       img_height img = Capture.videoHeight video /\
       img_src img = (Sequence.capturePhoto env s).1).
Proof.
  unfold Sequence.capturePhoto.
  destruct (Sequence.videoRef env s) as [video|];
    [destruct (Sequence.canvasRef s) as [canvas|]|]; simpl.
  - unfold Capture.toDataURL.
    destruct (CaptureFacts.captureCanvas_size video canvas) as [-> ->].
    destruct (Z.eqb_spec (Capture.videoWidth video) 0) as [Hw|Hw];
      [|destruct (Z.eqb_spec (Capture.videoHeight video) 0) as [Hh|Hh]]; simpl.
    + split; [split|done].
      * by intros [? ?].
      * intros (v & [= <-] & _ & ? & _). done.
    + split; [split|done].
      * by intros [? ?].
      * intros (v & [= <-] & _ & _ & ?). done.
    + split; [split|].
      * intros _. exists video. by repeat split.
      * by eexists.
      * intros img [= <-]. exists video. by repeat split.
  - split; [split|done].
    + by intros [? ?].
    + intros (v & _ & [? ?] & _). done.
  - split; [split|done].
    + by intros [? ?].
    + intros (v & ? & _). done.
Qed.

(** *** The canvas after any loads *)

Lemma cells_drawn_app a b : cells_drawn (a ++ b) = cells_drawn a ++ cells_drawn b.
Proof.
  induction a as [|o a IH]; [done|]. destruct o; simpl; by rewrite ?IH.
Qed.

Lemma titles_app a b : titles (a ++ b) = titles a + titles b.
Proof.
  induction a as [|o a IH]; [done|]. simpl. destruct (is_title o); simpl; lia.
Qed.

Lemma sprockets_plain fuel y :
  cells_drawn (sprockets fuel y) = [] /\ titles (sprockets fuel y) = 0.
Proof.
  revert y. induction fuel as [|fuel IH]; intros y; [done|].
  simpl. destruct (y <? totalHeight)%Z; [|done]. simpl. apply IH.
Qed.

Lemma onload_plain i img f o date :
  cells_drawn (onload i img f o date) = [inject_Z (yPos i)] /\
  titles (onload i img f o date) = if (i =? 2)%nat then 1 else 0.
Proof.
  unfold onload. rewrite cells_drawn_app, titles_app.
  unfold cellOps, overlayOps.
  destruct (truthy (canvasFilter f)),
           (String.eqb (overlay_id o) "vignette"),
           (String.eqb (overlay_id o) "hearts"), (i =? 2)%nat;
    simpl; rewrite ?andb_false_r; done.
Qed.

Lemma loadOps_plain date photos f o i :
  cells_drawn (loadOps date photos f o i)
    = match cell_of photos i with Some y => [y] | None => [] end /\
  titles (loadOps date photos f o i)
    = match photos !! i ≫= decode with
      | Some _ => if (i =? 2)%nat then 1 else 0
      | None => 0
      end.
Proof.
  unfold loadOps, cell_of. destruct (photos !! i ≫= decode) as [img|]; [|done].
  apply onload_plain.
Qed.

Lemma rendered_plain mode photos f o ref c loads :
  renderStrip mode photos f o ref = Some (c, loads) ->
  cells_drawn (ops c) = [] /\ titles (ops c) = 0 /\
  width c = totalWidth /\ height c = totalHeight.
Proof.
  intros Hr. apply renderStrip_Some in Hr as (_ & _ & _ & -> & _).
  cbn [ops width height app cells_drawn titles is_title].
  destruct (sprockets_plain (Z.to_nat totalHeight) 20) as [-> ->]. done.
Qed.

Lemma complete_size date loads c i :
  width (complete date loads c i) = width c /\
  height (complete date loads c i) = height c.
Proof. unfold complete. repeat case_match; done. Qed.

Lemma completeAll_size date loads order c :
  width (completeAll date loads order c) = width c /\
  height (completeAll date loads order c) = height c.
Proof.
  unfold completeAll. revert c. induction order as [|i order IH]; intros c; [done|].
  simpl. destruct (IH (complete date loads c i)) as [-> ->].
  apply complete_size.
Qed.

(** X11: after the loads of a render have finished in any order, the
    canvas still has the size of the strip and holds, after the
    background and the sprockets, one cell per finished load in the order
    of finishing; a photo that cannot be decoded ([undefined], the empty
    data URL) adds nothing, and the title line is on the canvas once if
    the third photo loaded and not at all if it could not be decoded.
    When all three photos load, in whatever order, all three cells and
    one footer are on the canvas. *)
Theorem strip_after_loads date (photos : list Sequence.Photo) f o ref c loads
    (order : list nat) :
  renderStrip Sequence.Review photos f o ref = Some (c, loads) ->
  let final := completeAll date loads order c in
  width final = totalWidth /\ height final = totalHeight /\
  cells_drawn (ops final) = omap (cell_of photos) order /\
  titles (ops final)
    = match photos !! 2 ≫= decode with
      | Some _ => length (filter (fun i => i = 2) order)
      | None => 0
      end /\
  (Forall (fun p => is_Some (decode p)) photos -> order ≡ₚ [0; 1; 2] ->
   cells_drawn (ops final) ≡ₚ [inject_Z (yPos 0); inject_Z (yPos 1); inject_Z (yPos 2)]
   /\ titles (ops final) = 1).
Proof.
  intros Hr final. subst final.
  destruct (rendered_plain _ _ _ _ _ _ _ Hr) as (Hc0 & Ht0 & Hw & Hh).
  destruct (completeAll_size date loads order c) as [-> ->].
  rewrite (ops_completeAll _ _ _ _ _ _ _ _ Hr), cells_drawn_app, titles_app, Hc0, Ht0.
  assert (cells_drawn (order ≫= loadOps date photos f o)
          = omap (cell_of photos) order) as Hcells.
  { induction order as [|i order IH]; [done|]. csimpl.
    rewrite cells_drawn_app, IH, (proj1 (loadOps_plain _ _ _ _ _)).
    by destruct (cell_of photos i). }
  assert (titles (order ≫= loadOps date photos f o)
          = match photos !! 2 ≫= decode with
            | Some _ => length (filter (fun i => i = 2) order)
            | None => 0
            end) as Htitles.
  { clear Hcells.
    induction order as [|i order IH]; [by destruct (photos !! 2 ≫= decode)|].
    csimpl. rewrite titles_app, IH, (proj2 (loadOps_plain _ _ _ _ _)).
    destruct (decide (i = 2)) as [-> | Hne].
    - rewrite filter_cons_True by done.
      by destruct (photos !! 2 ≫= decode).
    - rewrite filter_cons_False by done.
      apply Nat.eqb_neq in Hne. rewrite Hne.
      by destruct (photos !! i ≫= decode), (photos !! 2 ≫= decode). }
  split; [done|]. split; [done|]. split; [exact Hcells|]. split; [exact Htitles|].
  intros Hdec Hperm. rewrite Hcells, Htitles. simpl.
  apply renderStrip_Some in Hr as (_ & Hlen & _).
  destruct photos as [|p0 [|p1 [|p2 [|]]]]; try discriminate Hlen.
  apply Forall_cons in Hdec as [[i0 H0] Hdec].
  apply Forall_cons in Hdec as [[i1 H1] Hdec].
  apply Forall_cons in Hdec as [[i2 H2] _].
  apply perm3 in Hperm.
  repeat (apply elem_of_cons in Hperm as [-> | Hperm]);
    [..|by apply elem_of_nil in Hperm];
    unfold cell_of; simpl; rewrite H0, H1, H2; simpl; (split; [|done]).
  all: apply permutations_Permutation; vm_compute; repeat constructor.
Qed.

(** The theorem on three photos of which only the second can be decoded:
    one cell, no footer. *)
Lemma strip_after_loads_witness :
  exists c loads,
    renderStrip Sequence.Review [None; Examples.photoB; Some Capture.EmptyData]
      FILTERS_0 OVERLAYS_0 (Some blank) = Some (c, loads) /\
    cells_drawn (ops (completeAll "1/1/2026" loads [0; 1; 2] c))
      = [inject_Z (yPos 1)] /\
    titles (ops (completeAll "1/1/2026" loads [0; 1; 2] c)) = 0.
Proof.
  destruct (renderStrip Sequence.Review
              [None; Examples.photoB; Some Capture.EmptyData]
              FILTERS_0 OVERLAYS_0 (Some blank)) as [[c loads]|] eqn:E;
    [|vm_compute in E; discriminate E].
  exists c, loads. split; [reflexivity|].
  destruct (strip_after_loads "1/1/2026" _ _ _ _ _ _ [0; 1; 2] E)
    as (_ & _ & Hc & Ht & _).
  split; [exact Hc | exact Ht].
Defined.

(** *** The context between the calls *)

(** X12: the calls that draw a cell leave the context as they found it,
    whatever the filter and the overlay: filter, fill style, font, text
    alignment and the stack of saved states are the same before and
    after. The footer is drawn outside that bracket: it leaves the filter
    alone and leaves its grey fill style, its 16px font and the centred
    text alignment behind. *)
Theorem cell_pass_restores_context i img f o date c st :
  ctx_after (cellOps i img f o) c st = (c, st) /\
  ctx_after (footerOps date) c st
    = ({| ctx_filter := ctx_filter c; ctx_fillStyle := Color "#888888";
          ctx_font := "16px Courier New"; ctx_textAlign := "center" |}, st).
Proof. split; [apply cellOps_context | reflexivity]. Qed.

(** *** The glyphs of the hearts overlay *)

Lemma heart_aligns_app a b :
  heart_aligns (a ++ b) = heart_aligns a ++ heart_aligns b.
Proof. unfold heart_aligns. by rewrite List.filter_app, omap_app. Qed.

Lemma onload_hearts i img f o date c st :
  overlay_id o = "hearts" ->
  heart_aligns (painted (onload i img f o date) c st)
    = [ (inject_Z (yPos i + 50), ctx_textAlign c);
        (inject_Z (yPos i + photoHeight - 20), ctx_textAlign c) ].
Proof.
  intros Ho. unfold onload, cellOps. rewrite (overlayOps_hearts o _ Ho).
  destruct (truthy (canvasFilter f)), (i =? 2)%nat;
    unfold heart_aligns;
    cbn -[yPos inject_Z crop Z.add Z.sub heart String.eqb Qdiv];
    rewrite ?String.eqb_refl, ?andb_false_r;
    change (String.eqb "MEMORIES" heart) with false;
    reflexivity.
Qed.

Lemma glyphs_loads date photos f o order c st :
  overlay_id o = "hearts" ->
  heart_aligns (painted (order ≫= loadOps date photos f o) c st)
    = glyphs photos order (ctx_textAlign c).
Proof.
  intros Ho. revert c st. induction order as [|i order IH]; intros c st; [done|].
  csimpl. rewrite painted_app, heart_aligns_app, IH.
  unfold loadOps, cell_of. destruct (photos !! i ≫= decode) as [img|]; [|done].
  rewrite (onload_hearts _ _ _ _ _ _ _ Ho), onload_context.
  by destruct (i =? 2)%nat.
Qed.

Lemma glyphs_center photos order :
  Forall (fun g => g.2 = "center") (glyphs photos order "center").
Proof.
  induction order as [|i order IH]; [constructor|].
  simpl. destruct (cell_of photos i); [|done].
  repeat constructor. by destruct (i =? 2)%nat.
Qed.

Lemma glyphs_start photos order :
  2 ∉ order -> Forall (fun g => g.2 = "start") (glyphs photos order "start").
Proof.
  induction order as [|i order IH]; intros Hn; [constructor|].
  apply not_elem_of_cons in Hn as [Hi Hn].
  simpl. destruct (cell_of photos i); [|by apply IH].
  repeat constructor. destruct (Nat.eqb_spec i 2); [done|by apply IH].
Qed.

(** X13: with the hearts overlay, the text alignment of the two glyphs
    of a cell depends on when its image finishes loading. The footer sets
    [textAlign = 'center'] after the cell's [restore()] and nothing resets
    it, so the glyphs of every cell that loads after the third photo are
    drawn centred on their x position, the ones that load before it, and
    those of the third cell itself the first time, start at it. *)
Theorem hearts_alignment_follows_load_order date (photos : list Sequence.Photo)
    f o ref c loads (order : list nat) :
  overlay_id o = "hearts" ->
  renderStrip Sequence.Review photos f o ref = Some (c, loads) ->
  let drawn := heart_aligns
                 (painted (ops (completeAll date loads order c)) ctx0 []) in
  drawn = glyphs photos order "start" /\
  (2 ∉ order -> Forall (fun g => g.2 = "start") drawn) /\
  (forall rest, order = 2 :: rest -> is_Some (photos !! 2 ≫= decode) ->
     drawn = [ (inject_Z (yPos 2 + 50), "start");
               (inject_Z (yPos 2 + photoHeight - 20), "start") ]
             ++ glyphs photos rest "center" /\
     Forall (fun g => g.2 = "center") (glyphs photos rest "center")).
Proof.
  intros Ho Hr drawn.
  assert (drawn = glyphs photos order "start") as Hd.
  { subst drawn. rewrite (ops_completeAll _ _ _ _ _ _ _ _ Hr).
    apply renderStrip_Some in Hr as (_ & _ & _ & -> & _).
    cbn [ops]. rewrite painted_app, heart_aligns_app.
    rewrite (glyphs_loads _ _ _ _ _ _ _ Ho).
    by vm_compute. }
  split; [exact Hd|]. split.
  - intros Hn. rewrite Hd. by apply glyphs_start.
  - intros rest -> [img Himg]. split; [|apply glyphs_center].
    rewrite Hd. simpl. unfold cell_of. by rewrite Himg.
Qed.

(** The theorem on three photos whose third loads first, then the first
    and the second: the glyphs of the third cell start at their x
    position, the other four are centred on it. *)
Lemma hearts_alignment_follows_load_order_witness :
  exists c loads,
    renderStrip Sequence.Review [Examples.photoA; Examples.photoB; Examples.photoC]
      FILTERS_0 Examples.hearts (Some blank) = Some (c, loads) /\
    heart_aligns (painted (ops (completeAll "1/1/2026" loads [2; 0; 1] c)) ctx0 [])
      = [ (inject_Z 1070, "start"); (inject_Z 1450, "start");
          (inject_Z 110, "center"); (inject_Z 490, "center");
          (inject_Z 590, "center"); (inject_Z 970, "center") ].
Proof.
  destruct (renderStrip Sequence.Review
              [Examples.photoA; Examples.photoB; Examples.photoC]
              FILTERS_0 Examples.hearts (Some blank)) as [[c loads]|] eqn:E;
    [|vm_compute in E; discriminate E].
  exists c, loads. split; [reflexivity|].
  destruct (hearts_alignment_follows_load_order "1/1/2026" _ _ Examples.hearts
              _ _ _ [2; 0; 1] eq_refl E) as [Hd _].
  exact Hd.
Defined.

(** *** Where the filter is in force *)

Lemma sprockets_filter f fuel y c st :
  ctx_filter c = "none" ->
  Forall (filter_at f) (painted (sprockets fuel y) c st) /\
  ctx_filter (ctx_after (sprockets fuel y) c st).1 = "none" /\
  (ctx_after (sprockets fuel y) c st).2 = st.
Proof.
  revert y c. induction fuel as [|fuel IH]; intros y c Hc; [by repeat constructor|].
  cbn [sprockets]. destruct (y <? totalHeight)%Z; [|by repeat constructor].
  cbn [app painted paints ctx_after].
  destruct (IH (y + (sprocketGap + sprocketHeight))%Z
              {| ctx_filter := ctx_filter c; ctx_fillStyle := Color sprocketColor;
                 ctx_font := ctx_font c; ctx_textAlign := ctx_textAlign c |} Hc)
    as (HF & Hf & Hs).
  split; [|done]. by repeat constructor.
Qed.

Lemma onload_filter i img f o date c st :
  ctx_filter c = "none" ->
  Forall (filter_at f) (painted (onload i img f o date) c st).
Proof.
  intros Hc. unfold onload, cellOps, overlayOps, footerOps.
  destruct (truthy (canvasFilter f)) eqn:Ht,
           (String.eqb (overlay_id o) "vignette"),
           (String.eqb (overlay_id o) "hearts"), (i =? 2)%nat;
    cbn [app painted paints];
    repeat first [apply Forall_nil_2 | apply Forall_cons_2];
    unfold filter_at; cbn [fst snd ctx_filter]; rewrite ?Ht; auto.
Qed.

Lemma loads_filter date photos f o order c st :
  ctx_filter c = "none" ->
  Forall (filter_at f) (painted (order ≫= loadOps date photos f o) c st).
Proof.
  revert c st. induction order as [|i order IH]; intros c st Hc; [constructor|].
  csimpl. rewrite painted_app. apply Forall_app. unfold loadOps.
  destruct (photos !! i ≫= decode) as [img|]; [|split; [constructor|by apply IH]].
  split; [by apply onload_filter|].
  apply IH. rewrite onload_context. by destruct (i =? 2)%nat.
Qed.

(** X14: on the finished strip, after the loads have completed in any
    order, the selected filter is in force for the photos only: every
    photo is drawn under the filter's [canvasFilter], every sprocket hole
    and every text (the footer, the hearts) under ['none'], and a
    rectangle (the background, the vignette) under one of the two. With
    the Natural filter, whose [canvasFilter] is ['none'], everything is
    painted unfiltered. *)
Theorem filter_reaches_photos_only date (photos : list Sequence.Photo)
    f o ref c loads (order : list nat) :
  renderStrip Sequence.Review photos f o ref = Some (c, loads) ->
  let calls := painted (ops (completeAll date loads order c)) ctx0 [] in
  Forall (filter_at f) calls /\
  (canvasFilter f = "none" -> Forall (fun oc => ctx_filter oc.2 = "none") calls).
Proof.
  intros Hr calls.
  assert (Forall (filter_at f) calls) as HF.
  { subst calls. rewrite (ops_completeAll _ _ _ _ _ _ _ _ Hr).
    apply renderStrip_Some in Hr as (_ & _ & _ & -> & _).
    cbn [ops]. generalize (Z.to_nat totalHeight). intros fuel.
    rewrite painted_app. apply Forall_app.
    set (c1 := {| ctx_filter := "none"; ctx_fillStyle := Color "#111111";
                  ctx_font := "10px sans-serif"; ctx_textAlign := "start" |}).
    destruct (sprockets_filter f fuel 20 c1 [] eq_refl) as (HF & Hf & Hs).
    split.
    - cbn [app painted paints]. constructor; [by left|]. exact HF.
    - cbn [app ctx_after]. apply loads_filter. exact Hf. }
  split; [exact HF|].
  intros Hn. eapply Forall_impl; [exact HF|].
  intros [op cx]. unfold filter_at. cbn [fst snd]. rewrite Hn.
  destruct op; cbn; tauto.
Qed.

(** The theorem on three photos under the Golden Hour filter with the
    hearts overlay. *)
Lemma filter_reaches_photos_only_witness :
  exists c loads,
    renderStrip Sequence.Review [Examples.photoA; Examples.photoB; Examples.photoC]
      Examples.warm Examples.hearts (Some blank) = Some (c, loads) /\
    Forall (filter_at Examples.warm)
      (painted (ops (completeAll "1/1/2026" loads [1; 2; 0] c)) ctx0 []).
Proof.
  destruct (renderStrip Sequence.Review
              [Examples.photoA; Examples.photoB; Examples.photoC]
              Examples.warm Examples.hearts (Some blank)) as [[c loads]|] eqn:E;
    [|vm_compute in E; discriminate E].
  exists c, loads. split; [reflexivity|].
  exact (proj1 (filter_reaches_photos_only "1/1/2026" _ _ _ _ _ _ [1; 2; 0] E)).
Defined.

(** *** Overlays that exist in the preview only *)

Lemma loadOps_plain_overlay date photos f o i :
  overlay_id o <> "hearts" -> overlay_id o <> "vignette" ->
  loadOps date photos f o i = loadOps date photos f OVERLAYS_0 i.
Proof.
  intros H1 H2. unfold loadOps. destruct (photos !! i ≫= decode); [|done].
  unfold onload, cellOps. by rewrite (overlayOps_other o _ H1 H2).
Qed.

Lemma canvas_eq (a b : StripCanvas) :
  width a = width b -> height a = height b -> ops a = ops b -> a = b.
Proof. destruct a, b; simpl; congruence. Qed.

(** X15: an overlay other than hearts and vignette leaves no trace on
    the strip: whatever the photos, the filter and the order in which the
    loads finish, the canvas is call for call the one drawn with overlay
    None. Of the catalog that is Sparkles and Film Grain, which are seen
    in the live preview only. *)
Theorem preview_only_overlays date (photos : list Sequence.Photo) f o ref
    c loads (order : list nat) :
  overlay_id o <> "hearts" -> overlay_id o <> "vignette" ->
  renderStrip Sequence.Review photos f o ref = Some (c, loads) ->
  exists c0 loads0,
    renderStrip Sequence.Review photos f OVERLAYS_0 ref = Some (c0, loads0) /\
    completeAll date loads order c = completeAll date loads0 order c0.
Proof.
  intros H1 H2 Hr.
  destruct (renderStrip Sequence.Review photos f OVERLAYS_0 ref)
    as [[c0 loads0]|] eqn:Hr0.
  - exists c0, loads0. split; [done|].
    pose proof (renderStrip_Some _ _ _ _ _ _ _ Hr) as (_ & _ & _ & Hc & _).
    pose proof (renderStrip_Some _ _ _ _ _ _ _ Hr0) as (_ & _ & _ & Hc0 & _).
    destruct (completeAll_size date loads order c) as [Hw Hh].
    destruct (completeAll_size date loads0 order c0) as [Hw0 Hh0].
    apply canvas_eq.
    + rewrite Hw, Hw0, Hc, Hc0. done.
    + rewrite Hh, Hh0, Hc, Hc0. done.
    + rewrite (ops_completeAll _ _ _ _ _ _ _ _ Hr),
              (ops_completeAll _ _ _ _ _ _ _ _ Hr0), Hc, Hc0.
      f_equal. clear Hw Hh Hw0 Hh0.
      induction order as [|i order IH]; [done|].
      csimpl. by rewrite IH, (loadOps_plain_overlay _ _ _ _ _ H1 H2).
  - apply renderStrip_Some in Hr as (_ & Hl & [r ->] & _).
    unfold renderStrip in Hr0. rewrite Hl in Hr0. done.
Qed.

(** The theorem on the Sparkles overlay. *)
Lemma preview_only_overlays_witness :
  exists c loads c0 loads0,
    renderStrip Sequence.Review [Examples.photoA; Examples.photoB; Examples.photoC]
      Examples.warm {| overlay_id := "sparkles"; overlay_name := "Sparkles" |}
      (Some blank) = Some (c, loads) /\
    renderStrip Sequence.Review [Examples.photoA; Examples.photoB; Examples.photoC]
      Examples.warm OVERLAYS_0 (Some blank) = Some (c0, loads0) /\
    completeAll "1/1/2026" loads [0; 1; 2] c
      = completeAll "1/1/2026" loads0 [0; 1; 2] c0.
Proof.
  destruct (renderStrip Sequence.Review
              [Examples.photoA; Examples.photoB; Examples.photoC]
              Examples.warm {| overlay_id := "sparkles"; overlay_name := "Sparkles" |}
              (Some blank)) as [[c loads]|] eqn:E;
    [|vm_compute in E; discriminate E].
  assert ("sparkles" <> "hearts") as H1 by discriminate.
  assert ("sparkles" <> "vignette") as H2 by discriminate.
  destruct (preview_only_overlays "1/1/2026" _ _
              {| overlay_id := "sparkles"; overlay_name := "Sparkles" |}
              _ _ _ [0; 1; 2] H1 H2 E)
    as (c0 & loads0 & E0 & Heq).
  exists c, loads, c0, loads0. split; [reflexivity|]. split; [exact E0 | exact Heq].
Defined.

(** *** The sprocket loop and the layout *)

Section Layout.
Local Open Scope Z_scope.

Lemma rounds_step y :
  y < totalHeight ->
  Z.to_nat ((totalHeight - y + 69) / 70)
    = S (Z.to_nat ((totalHeight - (y + (sprocketGap + sprocketHeight)) + 69) / 70)).
Proof.
  unfold totalHeight, sprocketGap, sprocketHeight, topPadding, photoHeight,
    gap, bottomPadding. intros Hy.
  replace (60 + 450 * 3 + 30 * 2 + 100 - y + 69)
    with (60 + 450 * 3 + 30 * 2 + 100 - (y + (40 + 30)) + 69 + 1 * 70) by lia.
  rewrite Z.div_add by lia.
  rewrite <- Z2Nat.inj_succ; [f_equal; lia|].
  apply Z.div_pos; lia.
Qed.

Lemma rounds_done y :
  totalHeight <= y -> Z.to_nat ((totalHeight - y + 69) / 70) = 0%nat.
Proof.
  intros Hy. assert ((totalHeight - y + 69) / 70 <= 0); [|lia].
  assert ((totalHeight - y + 69) / 70 < 1); [|lia].
  apply Z.div_lt_upper_bound; lia.
Qed.

(** X16: the sprocket loop started at [y >= 0] runs once per 70 pixels
    left above the bottom edge, [ceil((totalHeight - y) / 70)] times, and
    makes seven calls each time; a bound on its rounds that is at least
    that number does not cut it short (more rounds change nothing); and
    every hole it draws lies in the left or the right margin, beside the
    photo cells, and starts on the canvas. *)
Theorem sprocket_loop (fuel more : nat) (y : Z) :
  0 <= y ->
  totalHeight - y <= 70 * Z.of_nat fuel ->
  sprockets (fuel + more) y = sprockets fuel y /\
  length (sprockets fuel y)
    = (7 * Z.to_nat ((totalHeight - y + 69) / 70))%nat /\
  Forall in_margin (sprockets fuel y).
Proof.
  revert y. induction fuel as [|fuel IH]; intros y Hy Hf.
  - assert (totalHeight <= y) as Hd by lia.
    rewrite (rounds_done y Hd). split; [|by split].
    destruct more as [|more]; [done|].
    cbn [Nat.add sprockets]. destruct (Z.ltb_spec y totalHeight); [lia|done].
  - cbn [Nat.add sprockets]. destruct (Z.ltb_spec y totalHeight) as [Hlt|Hge].
    + destruct (IH (y + (sprocketGap + sprocketHeight))) as (He & Hl & Hm).
      { unfold sprocketGap, sprocketHeight. lia. }
      { unfold sprocketGap, sprocketHeight. lia. }
      rewrite He, (rounds_step y Hlt). split; [done|]. split.
      * cbn [app length]. rewrite Hl. lia.
      * cbn [app]. repeat apply Forall_cons_2; try exact I; [| |exact Hm].
        -- cbn [in_margin]. split; [left|]; repeat split;
             unfold Qle, Qlt, totalHeight, totalWidth, sidePadding,
               photoWidth, sprocketWidth in *; simpl; lia.
        -- cbn [in_margin]. split; [right|]; repeat split;
             unfold Qle, Qlt, totalHeight, totalWidth, sidePadding,
               photoWidth, sprocketWidth in *; simpl; lia.
    + rewrite (rounds_done y Hge). by repeat split.
Qed.

(** The theorem on the loop as the effect runs it, from [y = 20] with the
    bound of the model: 23 rounds. *)
Lemma sprocket_loop_witness :
  length (sprockets (Z.to_nat totalHeight) 20) = (7 * 23)%nat /\
  Forall in_margin (sprockets (Z.to_nat totalHeight) 20).
Proof.
  assert (0 <= 20) as H0 by lia.
  assert (totalHeight - 20 <= 70 * Z.of_nat (Z.to_nat totalHeight)) as H1
    by (vm_compute; discriminate).
  destruct (sprocket_loop (Z.to_nat totalHeight) 0 20 H0 H1) as (_ & Hl & Hm).
  split; [exact Hl | exact Hm].
Defined.



End Layout.

(** *** The download *)

Lemma length_app_string (a b : string) :
  String.length (a +:+ b) = String.length a + String.length b.
Proof. induction a as [|x a IH]; simpl; [done|by rewrite IH]. Qed.

Lemma app_cancel_r (a b s : string) : a +:+ s = b +:+ s -> a = b.
Proof.
  revert b. induction a as [|x a IH]; intros [|y b] H; simpl in H.
  - done.
  - apply (f_equal String.length) in H. simpl in H.
    rewrite ?length_app_string in H. simpl in H. lia.
  - apply (f_equal String.length) in H. simpl in H.
    rewrite ?length_app_string in H. simpl in H. lia.
  - injection H as -> H. f_equal. by apply IH.
Qed.

(** X18: on every page the component can reach, a click on the download
    button exports something exactly when the button is there (review, no
    camera error) and the strip canvas is mounted; the photo-list guard of
    [downloadStrip] never stops it there. What is exported is the canvas
    as it is at the click, as PNG, under the name
    [photo-strip-<now>.png]; two downloads have the same name only if
    they were made in the same millisecond. *)
Theorem download_exports_canvas s ref now :
  Sequence.reachable s ->
  (is_Some (clickDownload s ref now) <->
   Sequence.error s = None /\ Sequence.mode s = Sequence.Review /\ is_Some ref) /\
  (forall d, clickDownload s ref now = Some d ->
     ref = Some (href_canvas d) /\ href_mime d = Capture.image_png /\
     download d = "photo-strip-" +:+ pretty now +:+ ".png") /\
  (forall now' d d', clickDownload s ref now = Some d ->
     clickDownload s ref now' = Some d' -> download d = download d' ->
     now = now').
Proof.
  intros Hr. pose proof (SequenceFacts.reachable_Inv s Hr) as HI.
  unfold clickDownload, downloadStrip. cbn [Sequence.offered].
  destruct (Sequence.error s) as [msg|] eqn:He.
  { rewrite bool_decide_eq_false_2 by done. cbn [andb].
    repeat apply conj; [by intros [? ?] | by intros (? & _) | done | done]. }
  rewrite bool_decide_eq_true_2 by done. cbn [andb].
  destruct (decide (Sequence.mode s = Sequence.Review)) as [Hm|Hm].
  - rewrite bool_decide_eq_true_2 by done.
    unfold Sequence.Inv in HI. rewrite Hm in HI. destruct HI as [_ Hl].
    rewrite Hl. cbn [Nat.eqb].
    destruct ref as [c|].
    + repeat apply conj.
      * by intros _.
      * by intros _.
      * by intros d [= <-].
      * intros now' d d' [= <-] [= <-]. cbn [download]. intros H.
        apply (inj (String.app "photo-strip-")) in H.
        apply app_cancel_r in H. by apply (inj pretty) in H.
    + repeat apply conj; [by intros [? ?] | by intros (_ & _ & [? ?]) | done | done].
  - rewrite bool_decide_eq_false_2 by done.
    repeat apply conj; [by intros [? ?] | by intros (_ & ? & _) | done | done].
Qed.

(** The theorem on the page after a session. *)
Lemma download_exports_canvas_witness :
  clickDownload Examples.afterSession (Some blank) 1700000000000
    = Some {| download := "photo-strip-1700000000000.png";
              href_mime := Capture.image_png; href_canvas := blank |}.
Proof.
  assert (Sequence.reachable Examples.afterSession) as Hr.
  { apply (SequenceFacts.ui_run_reachable
             (Sequence.session 0 (fun _ => Examples.env)) Examples.ready);
      [apply SequenceFacts.reachable_ready | by vm_compute]. }
  destruct (download_exports_canvas Examples.afterSession (Some blank)
              1700000000000 Hr) as ([_ Hs] & Hd & _).
  destruct Hs as [d Hd'];
    [repeat apply conj;
       [vm_compute; reflexivity | vm_compute; reflexivity | by eexists]|].
  destruct (Hd d Hd') as (Hc & Hm & Hn).
  rewrite Hd'. destruct d as [n m c]. cbn in Hc, Hm, Hn.
  injection Hc as <-. rewrite Hm, Hn. by vm_compute.
Defined.

End StripMore.
